(** * Lango: a shallow embedding of [backend/server.py]

    The server is a FastAPI application over a MongoDB database.  The
    embedding follows the source handler by handler:

    - a request handler becomes a function from the database (and the
      request's arguments) to a response, or to a new database and a
      response when it writes;
    - [HTTPException], a failed model validation and a query MongoDB
      refuses are the ways a handler ends without a value, see [result];
    - the collections [users], [languages] and [contributions] are only ever
      written from validated model instances ([insert_one(x.dict())], [$inc]
      on an integer field), so they are lists of records; the collection
      [words] is also written by [$set] with values taken from the request
      body as they come, so it is a list of documents;
    - a cursor is the list of the matching documents in the order of the
      collection, [find_one] its first element, [to_list(n)] its first [n];
    - [uuid.uuid4()], [datetime.utcnow()], the salt of the password hash and
      the [_id] MongoDB gives a new document are inputs of the handler that
      makes them; the clock does not advance within one request, and time is
      counted in whole seconds;
    - PyJWT, passlib and the regular expressions of MongoDB are libraries:
      the first two are the interface [Platform], the third is the fragment
      of PCRE modelled in [Module Regex]. *)

From Stdlib Require Import ZArith Ascii String Bool Lia.
From stdpp Require Import gmap strings list fin_maps.

#[local] Set Warnings "-register-all".
#[local] Open Scope Z_scope.

(** ** JSON values and BSON documents *)

Inductive value : Type :=
  | VNull
  | VBool (b : bool)
  | VInt (z : Z)
  | VStr (s : string)
  | VTime (t : Z)
  | VObjectId (oid : string)
  | VList (l : list value)
  | VDict (m : gmap string value).

Abbreviation doc := (gmap string value).

(** ** Responses *)

Inductive result (A : Type) : Type :=
  | Ok (a : A)
  | HTTPException (status_code : Z) (detail : string)
  | ValidationError
  | OperationFailure.

Arguments Ok {A} a.
Arguments HTTPException {A} status_code detail.
Arguments ValidationError {A}.
Arguments OperationFailure {A}.

Definition is_Ok {A} (r : result A) : bool :=
  match r with Ok _ => true | _ => false end.

(** ** Python truthiness, for [if search:], [if to_language and result:]
    and [if expires_delta:] *)

Definition truthy_str (o : option string) : bool :=
  match o with
  | Some s => negb (bool_decide (s = EmptyString))
  | None => false
  end.

Definition truthy_timedelta (o : option Z) : bool :=
  match o with
  | Some d => negb (d =? 0)
  | None => false
  end.

Definition truthy_list {A} (l : list A) : bool :=
  match l with [] => false | _ => true end.

(** ** Case folding

    Strings are byte strings and the letters folded are the ASCII ones. *)

Definition to_lower (c : ascii) : ascii :=
  let n := N_of_ascii c in
  if ((65 <=? n) && (n <=? 90))%N then ascii_of_N (n + 32) else c.

Fixpoint lower (s : string) : string :=
  match s with
  | EmptyString => EmptyString
  | String c s' => String (to_lower c) (lower s')
  end.

Definition newline : ascii := ascii_of_N 10.

(** ** The regular expressions of [{"$regex": p, "$options": "i"}]

    The fragment: literal characters, [.], [^], [$], [|], the postfix
    [*], [+] and [?] on a character or a dot, and a backslash before a
    metacharacter.  Groups, classes and counted repetition are outside it:
    [parse] answers [None] on them, as it does on a pattern PCRE rejects. *)

Module Regex.

Inductive t : Type :=
  | Empty
  | Eps
  | Chr (c : ascii)
  | Any
  | Bol
  | Eol
  | Alt (r1 r2 : t)
  | Cat (r1 r2 : t)
  | Star (r : t).

Definition metachars : list ascii :=
  list_ascii_of_string "\^$.[]|()?*+{}".

Definition is_meta (c : ascii) : bool :=
  existsb (Ascii.eqb c) metachars.

Fixpoint meta_free (s : string) : bool :=
  match s with
  | EmptyString => true
  | String c s' => negb (is_meta c) && meta_free s'
  end.

Fixpoint seq (atoms : list t) : t :=
  match atoms with
  | [] => Eps
  | a :: atoms' => Cat a (seq atoms')
  end.

Definition quantifiable (a : t) : bool :=
  match a with Chr _ | Any => true | _ => false end.

(** [atoms] holds the atoms of the branch being read, last one first. *)
Fixpoint parse_from (p : string) (atoms : list t) : option t :=
  match p with
  | EmptyString => Some (seq (rev atoms))
  | String c p' =>
      if Ascii.eqb c "|" then
        match parse_from p' [] with
        | Some r => Some (Alt (seq (rev atoms)) r)
        | None => None
        end
      else if Ascii.eqb c "*" then
        match atoms with
        | a :: atoms' =>
            if quantifiable a then parse_from p' (Star a :: atoms') else None
        | [] => None
        end
      else if Ascii.eqb c "+" then
        match atoms with
        | a :: atoms' =>
            if quantifiable a
            then parse_from p' (Cat a (Star a) :: atoms') else None
        | [] => None
        end
      else if Ascii.eqb c "?" then
        match atoms with
        | a :: atoms' =>
            if quantifiable a
            then parse_from p' (Alt a Eps :: atoms') else None
        | [] => None
        end
      else if Ascii.eqb c "." then parse_from p' (Any :: atoms)
      else if Ascii.eqb c "^" then parse_from p' (Bol :: atoms)
      else if Ascii.eqb c "$" then parse_from p' (Eol :: atoms)
      else if Ascii.eqb c "\" then
        match p' with
        | String d p'' =>
            if is_meta d then parse_from p'' (Chr d :: atoms) else None
        | EmptyString => None
        end
      else if is_meta c then None
      else parse_from p' (Chr c :: atoms)
  end.

Definition parse (p : string) : option t := parse_from p [].

(** [$] holds at the end of the subject and before a final newline. *)
Definition at_end (s : string) : bool :=
  match s with
  | EmptyString => true
  | String c EmptyString => Ascii.eqb c newline
  | _ => false
  end.

(** Does [r] match the empty string at a position that is the start of
    the subject ([bos]) or where [$] holds ([eos])? *)
Fixpoint nullable (r : t) (bos eos : bool) : bool :=
  match r with
  | Empty => false
  | Eps => true
  | Chr _ => false
  | Any => false
  | Bol => bos
  | Eol => eos
  | Alt r1 r2 => nullable r1 bos eos || nullable r2 bos eos
  | Cat r1 r2 => nullable r1 bos eos && nullable r2 bos eos
  | Star _ => true
  end.

(** What is left of [r] after it has read [c] at such a position; the
    option [i] makes a letter match in either case, and the dot does not
    match a newline. *)
Fixpoint deriv (bos eos : bool) (c : ascii) (r : t) : t :=
  match r with
  | Empty | Eps | Bol | Eol => Empty
  | Chr a => if Ascii.eqb (to_lower a) (to_lower c) then Eps else Empty
  | Any => if Ascii.eqb c newline then Empty else Eps
  | Alt r1 r2 => Alt (deriv bos eos c r1) (deriv bos eos c r2)
  | Cat r1 r2 =>
      Alt (Cat (deriv bos eos c r1) r2)
          (if nullable r1 bos eos then deriv bos eos c r2 else Empty)
  | Star r1 => Cat (deriv bos eos c r1) (Star r1)
  end.

(** [r] matches some prefix of [s]. *)
Fixpoint match_here (r : t) (bos : bool) (s : string) : bool :=
  nullable r bos (at_end s) ||
  match s with
  | EmptyString => false
  | String c s' => match_here (deriv bos (at_end s) c r) false s'
  end.

(** [r] matches somewhere in [s]: the test MongoDB makes. *)
Fixpoint search_from (r : t) (bos : bool) (s : string) : bool :=
  match_here r bos s ||
  match s with
  | EmptyString => false
  | String _ s' => search_from r false s'
  end.

Definition search (r : t) (s : string) : bool := search_from r true s.

End Regex.

(** ** The pydantic models *)

Inductive UserRole : Type := USER | CONTRIBUTOR | MODERATOR | ADMIN.

#[global] Instance UserRole_eq_dec : EqDecision UserRole.
Proof. solve_decision. Defined.

Module User.
Record t : Type := Build {
  id : string;
  email : string;
  username : string;
  hashed_password : string;
  role : UserRole;
  contributor_rank : Z;
  contribution_count : Z;
  created_at : Z;
  updated_at : Z
}.

(** [{"$inc": {"contribution_count": 1}}] *)
Definition inc_contribution_count (u : t) : t :=
  Build (id u) (email u) (username u) (hashed_password u) (role u)
        (contributor_rank u) (contribution_count u + 1)
        (created_at u) (updated_at u).

(** [{"$inc": {"contributor_rank": 1}}] *)
Definition inc_contributor_rank (u : t) : t :=
  Build (id u) (email u) (username u) (hashed_password u) (role u)
        (contributor_rank u + 1) (contribution_count u)
        (created_at u) (updated_at u).

(** The filters [{"id": i}], [{"username": n}] and [{"email": e}]. *)
Definition has_id (i : string) (u : t) : bool := bool_decide (id u = i).
Definition has_username (n : string) (u : t) : bool :=
  bool_decide (username u = n).
Definition has_email (e : string) (u : t) : bool :=
  bool_decide (email u = e).
End User.

Module UserCreate.
Record t : Type := Build {
  email : string;
  username : string;
  password : string
}.
End UserCreate.

Module UserResponse.
Record t : Type := Build {
  id : string;
  email : string;
  username : string;
  role : UserRole;
  contributor_rank : Z;
  contribution_count : Z;
  created_at : Z
}.

(** [UserResponse] built from [user_in_db.dict()]: the fields of the
    response model, the others dropped. *)
Definition of_user (u : User.t) : t :=
  Build (User.id u) (User.email u) (User.username u) (User.role u)
        (User.contributor_rank u) (User.contribution_count u)
        (User.created_at u).
End UserResponse.

Module Language.
Record t : Type := Build {
  id : string;
  name : string;
  code : string;
  native_name : option string;
  created_at : Z;
  updated_at : Z
}.
End Language.

Module Word.
Record t : Type := Build {
  id : string;
  word : string;
  language_id : string;
  meanings : list (gmap string string);
  created_by : string;
  last_modified_by : string;
  created_at : Z;
  updated_at : Z
}.

Definition set_meanings (ms : list (gmap string string)) (w : t) : t :=
  Build (id w) (word w) (language_id w) ms (created_by w)
        (last_modified_by w) (created_at w) (updated_at w).

Definition meanings_value (ms : list (gmap string string)) : value :=
  VList (map (λ m : gmap string string, VDict (VStr <$> m)) ms).

(** [w.dict()] *)
Definition dict (w : t) : doc :=
  <["id" := VStr (id w)]>
  (<["word" := VStr (word w)]>
  (<["language_id" := VStr (language_id w)]>
  (<["meanings" := meanings_value (meanings w)]>
  (<["created_by" := VStr (created_by w)]>
  (<["last_modified_by" := VStr (last_modified_by w)]>
  (<["created_at" := VTime (created_at w)]>
  (<["updated_at" := VTime (updated_at w)]> ∅))))))).

Definition as_str (v : value) : option string :=
  match v with VStr s => Some s | _ => None end.

Definition as_time (v : value) : option Z :=
  match v with VTime t => Some t | _ => None end.

(** A [Dict[str, str]]: every value a string. *)
Definition as_str_dict (v : value) : option (gmap string string) :=
  match v with
  | VDict m =>
      let m' := omap as_str m in
      if bool_decide (dom m' = dom m) then Some m' else None
  | _ => None
  end.

Definition as_meanings (v : value) : option (list (gmap string string)) :=
  match v with
  | VList l => mapM as_str_dict l
  | _ => None
  end.

(** [Word] built from the document [d].  Keys the model does not have
    are ignored.  Every
    document of the collection is written with the eight keys of the
    model, so the defaults of the fields are not modelled (a document that
    lacks one of them does not parse here), and neither is the coercion
    pydantic may apply to a value of another type. *)
Definition parse (d : doc) : option t :=
  i ← d !! "id" ≫= as_str;
  w ← d !! "word" ≫= as_str;
  l ← d !! "language_id" ≫= as_str;
  ms ← d !! "meanings" ≫= as_meanings;
  cb ← d !! "created_by" ≫= as_str;
  lm ← d !! "last_modified_by" ≫= as_str;
  ca ← d !! "created_at" ≫= as_time;
  ua ← d !! "updated_at" ≫= as_time;
  Some (Build i w l ms cb lm ca ua).
End Word.

Module WordCreate.
Record t : Type := Build {
  word : string;
  language_id : string;
  meanings : list (gmap string string)
}.
End WordCreate.

Module Contribution.
Record t : Type := Build {
  id : string;
  user_id : string;
  word_id : string;
  contribution_type : string;
  change_details : gmap string value;
  created_at : Z
}.

Definition has_user_id (i : string) (c : t) : bool :=
  bool_decide (user_id c = i).
End Contribution.

(** ** The database *)

Record database : Type := Database {
  users : list User.t;
  languages : list Language.t;
  words : list doc;
  contributions : list Contribution.t
}.

Definition set_users (us : list User.t) (db : database) : database :=
  Database us (languages db) (words db) (contributions db).
Definition set_languages (ls : list Language.t) (db : database) : database :=
  Database (users db) ls (words db) (contributions db).
Definition set_words (ws : list doc) (db : database) : database :=
  Database (users db) (languages db) ws (contributions db).
Definition set_contributions (cs : list Contribution.t) (db : database)
  : database :=
  Database (users db) (languages db) (words db) cs.

(** *** Collection operations *)

Definition find_one {A} (q : A → bool) (coll : list A) : option A :=
  List.find q coll.

Definition find {A} (q : A → bool) (coll : list A) : list A :=
  List.filter q coll.

Definition to_list {A} (n : nat) (cursor : list A) : list A := take n cursor.

Definition insert_one {A} (x : A) (coll : list A) : list A := coll ++ [x].

(** The first document the filter selects is updated, no other. *)
Fixpoint update_one {A} (q : A → bool) (f : A → A) (coll : list A) : list A :=
  match coll with
  | [] => []
  | x :: coll' => if q x then f x :: coll' else x :: update_one q f coll'
  end.

(** *** Filters on documents

    A filter on a field holds of a string value that satisfies it and of
    an array with such an element. *)

Inductive cond : Type :=
  | Eq (s : string)
  | RegexI (p : string).

Abbreviation query := (list (string * cond)).

Definition str_has (p : string → bool) (v : value) : bool :=
  match v with VStr s => p s | _ => false end.

Definition value_has (p : string → bool) (v : value) : bool :=
  match v with
  | VStr s => p s
  | VList l => existsb (str_has p) l
  | _ => false
  end.

Definition compile_cond (c : cond) : option (value → bool) :=
  match c with
  | Eq s => Some (value_has (String.eqb s))
  | RegexI p =>
      match Regex.parse p with
      | Some r => Some (value_has (Regex.search r))
      | None => None
      end
  end.

Definition field_has (k : string) (f : value → bool) (d : doc) : bool :=
  match d !! k with Some v => f v | None => false end.

(** [None]: MongoDB refuses the query. *)
Fixpoint compile (q : query) : option (doc → bool) :=
  match q with
  | [] => Some (λ _, true)
  | (k, c) :: q' =>
      match compile_cond c, compile q' with
      | Some f, Some g => Some (λ d, field_has k f d && g d)
      | _, _ => None
      end
  end.

(** [{"$set": upd}] *)
Definition set_fields (upd : doc) (d : doc) : doc := upd ∪ d.

(** ** PyJWT and passlib *)

Class Platform : Type := {
  SECRET_KEY : string;
  (** the HS256 signature of a payload under a key *)
  hs256 : string → gmap string value → string;
  (** [pwd_context.hash], from a salt and a password *)
  pwd_hash : string → string → string;
  (** [pwd_context.verify], of a password against a hash *)
  pwd_verify : string → string → bool
}.

Inductive token : Type :=
  | Opaque (s : string)
  | JWT (claims : gmap string value) (signature : string).

(** What one request draws from the clock and from the generators. *)
Record ambient : Type := Ambient {
  utcnow : Z;
  uuid4_a : string;
  uuid4_b : string;
  object_id : string;
  salt : string
}.

Definition ACCESS_TOKEN_EXPIRE_MINUTES : Z := 30.

(** [timedelta(minutes=m)], in seconds *)
Definition minutes (m : Z) : Z := 60 * m.

Section Server.
Context {platform : Platform}.

Definition jwt_encode (payload : gmap string value) (key : string) : token :=
  JWT payload (hs256 key payload).

(** [None] stands for a [PyJWTError]: not a token, a signature that is
    not the one of the payload, an [exp] that is not a time, or an [exp]
    that is not after [now] (PyJWT 2 refuses a token at the very second of
    its expiry; nothing below depends on that second). *)
Definition jwt_decode (tok : token) (key : string) (now : Z)
  : option (gmap string value) :=
  match tok with
  | Opaque _ => None
  | JWT claims sig =>
      if bool_decide (sig = hs256 key claims) then
        match claims !! "exp" with
        | None => Some claims
        | Some (VTime e) | Some (VInt e) =>
            if e <=? now then None else Some claims
        | Some _ => None
        end
      else None
  end.

Definition verify_password (plain_password hashed_password : string) : bool :=
  pwd_verify plain_password hashed_password.

Definition get_password_hash (slt password : string) : string :=
  pwd_hash slt password.

Definition get_user (db : database) (username : string) : option User.t :=
  find_one (User.has_username username) (users db).

Definition authenticate_user (db : database) (username password : string)
  : option User.t :=
  match get_user db username with
  | None => None
  | Some user =>
      if negb (verify_password password (User.hashed_password user))
      then None
      else Some user
  end.

Definition create_access_token (data : gmap string value)
    (expires_delta : option Z) (now : Z) : token :=
  let to_encode := data in
  let expire :=
    if truthy_timedelta expires_delta
    then now + default 0 expires_delta
    else now + minutes 15 in
  let to_encode := <["exp" := VTime expire]> to_encode in
  jwt_encode to_encode SECRET_KEY.

Definition credentials_exception {A} : result A :=
  HTTPException 401 "Could not validate credentials".

(** A subject that is not a string fails in [TokenData], outside the
    [except] clause. *)
Definition get_current_user (db : database) (tok : token) (now : Z)
  : result User.t :=
  match jwt_decode tok SECRET_KEY now with
  | None => credentials_exception
  | Some payload =>
      match payload !! "sub" with
      | None | Some VNull => credentials_exception
      | Some (VStr username) =>
          match get_user db username with
          | None => credentials_exception
          | Some user => Ok user
          end
      | Some _ => ValidationError
      end
  end.

Definition get_current_active_user (current_user : User.t) : User.t :=
  current_user.

Definition is_moderator (current_user : User.t) : result User.t :=
  if negb (bool_decide (User.role current_user ∈ [MODERATOR; ADMIN]))
  then HTTPException 403 "Insufficient permissions"
  else Ok current_user.

(** *** Routes for authentication *)

Definition register_user (db : database) (user_data : UserCreate.t)
    (e : ambient) : database * result UserResponse.t :=
  match find_one (User.has_username (UserCreate.username user_data))
                 (users db) with
  | Some _ => (db, HTTPException 400 "Username already registered")
  | None =>
      match find_one (User.has_email (UserCreate.email user_data))
                     (users db) with
      | Some _ => (db, HTTPException 400 "Email already registered")
      | None =>
          let hashed_password :=
            get_password_hash (salt e) (UserCreate.password user_data) in
          let user_in_db :=
            User.Build (uuid4_a e) (UserCreate.email user_data)
              (UserCreate.username user_data) hashed_password
              CONTRIBUTOR 0 0 (utcnow e) (utcnow e) in
          (set_users (insert_one user_in_db (users db)) db,
           Ok (UserResponse.of_user user_in_db))
      end
  end.

Definition login_for_access_token (db : database)
    (form_username form_password : string) (now : Z) : result token :=
  match authenticate_user db form_username form_password with
  | None => HTTPException 401 "Incorrect username or password"
  | Some user =>
      let access_token_expires := minutes ACCESS_TOKEN_EXPIRE_MINUTES in
      Ok (create_access_token {[ "sub" := VStr (User.username user) ]}
            (Some access_token_expires) now)
  end.

(** *** Language routes *)

Definition get_languages (db : database) : result (list Language.t) :=
  Ok (to_list 1000 (languages db)).

(** [current_user] is what [get_current_user] gave; the route depends on
    [is_moderator]. *)
Definition create_language (db : database) (language : Language.t)
    (current_user : User.t) : database * result Language.t :=
  match is_moderator current_user with
  | Ok _ =>
      (set_languages (insert_one language (languages db)) db, Ok language)
  | HTTPException c d => (db, HTTPException c d)
  | ValidationError => (db, ValidationError)
  | OperationFailure => (db, OperationFailure)
  end.
(** *** Word and translation routes *)

Definition parse_words (docs : list doc) : result (list Word.t) :=
  match mapM Word.parse docs with
  | Some ws => Ok ws
  | None => ValidationError
  end.

Definition get_words (db : database) (language_id search : option string)
  : result (list Word.t) :=
  let query : query := [] in
  let query :=
    if truthy_str language_id
    then query ++ [("language_id", Eq (default EmptyString language_id))]
    else query in
  let query :=
    if truthy_str search
    then query ++ [("word", RegexI (default EmptyString search))]
    else query in
  match compile query with
  | None => OperationFailure
  | Some q => parse_words (to_list 1000 (find q (words db)))
  end.

(** The filter [{"id": word_id}] on a document. *)
Definition id_is (word_id : string) : doc → bool :=
  field_has "id" (value_has (String.eqb word_id)).

Definition get_word (db : database) (word_id : string) : result Word.t :=
  match find_one (id_is word_id) (words db) with
  | None => HTTPException 404 "Word not found"
  | Some word =>
      match Word.parse word with
      | Some w => Ok w
      | None => ValidationError
      end
  end.

Definition create_word (db : database) (word_data : WordCreate.t)
    (current_user : User.t) (e : ambient) : database * result Word.t :=
  let new_word :=
    Word.Build (uuid4_a e) (WordCreate.word word_data)
      (WordCreate.language_id word_data) (WordCreate.meanings word_data)
      (User.id current_user) (User.id current_user)
      (utcnow e) (utcnow e) in
  let db :=
    set_words
      (insert_one (<["_id" := VObjectId (object_id e)]> (Word.dict new_word))
                  (words db)) db in
  let contribution :=
    Contribution.Build (uuid4_b e) (User.id current_user)
      (Word.id new_word) "add"
      {[ "word" := VStr (WordCreate.word word_data) ]} (utcnow e) in
  let db :=
    set_contributions (insert_one contribution (contributions db)) db in
  let db :=
    set_users
      (update_one (User.has_id (User.id current_user))
                  User.inc_contribution_count (users db)) db in
  let db :=
    if User.contribution_count current_user mod 10 =? 0
    then set_users
           (update_one (User.has_id (User.id current_user))
                       User.inc_contributor_rank (users db)) db
    else db in
  (db, Ok new_word).

Definition update_word (db : database) (word_id : string)
    (word_data : gmap string value) (current_user : User.t) (e : ambient)
  : database * result Word.t :=
  match find_one (id_is word_id) (words db) with
  | None => (db, HTTPException 404 "Word not found")
  | Some word =>
      let update_data : doc :=
        <["last_modified_by" := VStr (User.id current_user)]>
          (<["updated_at" := VTime (utcnow e)]> ∅) in
      let update_data :=
        map_fold
          (λ field value (update_data : doc),
             if bool_decide (field ∈ ["word"; "meanings"])
             then <[field := value]> update_data
             else update_data)
          update_data word_data in
      let db :=
        set_words
          (update_one (id_is word_id) (set_fields update_data) (words db))
          db in
      let contribution :=
        Contribution.Build (uuid4_a e) (User.id current_user) word_id
          "edit" word_data (utcnow e) in
      let db :=
        set_contributions (insert_one contribution (contributions db)) db in
      let db :=
        set_users
          (update_one (User.has_id (User.id current_user))
                      User.inc_contribution_count (users db)) db in
      let db :=
        if User.contribution_count current_user mod 10 =? 0
        then set_users
               (update_one (User.has_id (User.id current_user))
                           User.inc_contributor_rank (users db)) db
        else db in
      match find_one (id_is word_id) (words db) with
      | Some updated_word =>
          match Word.parse updated_word with
          | Some w => (db, Ok w)
          | None => (db, ValidationError)
          end
      | None => (db, ValidationError)
      end
  end.

(** [m.get("language_id") == to_language] *)
Definition targets (to_language : string) (m : gmap string string) : bool :=
  bool_decide (m !! "language_id" = Some to_language).

(** The loop of [search_words] over [result]. *)
Fixpoint filter_results (to_language : string) (result : list Word.t)
  : list Word.t :=
  match result with
  | [] => []
  | word :: result' =>
      let filtered_meanings :=
        List.filter (targets to_language) (Word.meanings word) in
      if truthy_list filtered_meanings
      then Word.set_meanings filtered_meanings word
           :: filter_results to_language result'
      else filter_results to_language result'
  end.

Definition search_words (db : database) (word : string)
    (from_language to_language : option string) : result (list Word.t) :=
  let query : query := [("word", RegexI (String "^" word))] in
  let query :=
    if truthy_str from_language
    then query ++ [("language_id", Eq (default EmptyString from_language))]
    else query in
  match compile query with
  | None => OperationFailure
  | Some q =>
      match parse_words (to_list 100 (find q (words db))) with
      | Ok result =>
          if truthy_str to_language && truthy_list result
          then Ok (filter_results (default EmptyString to_language) result)
          else Ok result
      | HTTPException c d => HTTPException c d
      | ValidationError => ValidationError
      | OperationFailure => OperationFailure
      end
  end.

Definition get_user_contributions (db : database) (user_id : string)
    (current_user : User.t) : result (list Contribution.t) :=
  if negb (bool_decide (User.id current_user = user_id))
     && negb (bool_decide (User.role current_user ∈ [MODERATOR; ADMIN]))
  then HTTPException 403 "Not authorized to view these contributions"
  else Ok (to_list 1000
             (find (Contribution.has_user_id user_id) (contributions db))).
End Server.

(** ** Requests in sequence

    A request to [create_word] or [update_word] made with a valid token of
    [username]: [get_current_user] reads the user in the database as it is
    when the request starts, and the handler runs with what it read. *)

Inductive action : Type :=
  | CreateWord (word_data : WordCreate.t)
  | UpdateWord (word_id : string) (word_data : gmap string value).

Definition request (db : database) (username : string) (a : action)
    (e : ambient) : database * result Word.t :=
  match get_user db username with
  | None => (db, credentials_exception)
  | Some current_user =>
      match a with
      | CreateWord word_data => create_word db word_data current_user e
      | UpdateWord word_id word_data =>
          update_word db word_id word_data current_user e
      end
  end.

(** The database after each request of the list, with its response. *)
Fixpoint run (db : database) (username : string)
    (reqs : list (action * ambient)) : list (database * result Word.t) :=
  match reqs with
  | [] => []
  | (a, e) :: reqs' =>
      let r := request db username a e in
      r :: run (fst r) username reqs'
  end.

(** The database after the first [k] requests. *)
Definition after (db : database) (username : string)
    (reqs : list (action * ambient)) (k : nat) : database :=
  default db (last (map fst (run db username (take k reqs)))).

(** ** The literal tests the specification speaks of

    [starts_with_ci text q]: the text begins with the string [q], letters
    compared without case; [contains_ci text q]: the string [q] occurs
    somewhere in the text.  [prefix_ci] and [substring_ci] decide them. *)

Definition starts_with_ci (text q : string) : Prop :=
  ∃ post, lower text = lower q +:+ post.

Definition contains_ci (text q : string) : Prop :=
  ∃ pre post, lower text = pre +:+ lower q +:+ post.

Fixpoint prefix_ci (q s : string) : bool :=
  match q, s with
  | EmptyString, _ => true
  | String a q', String c s' =>
      Ascii.eqb (to_lower a) (to_lower c) && prefix_ci q' s'
  | String _ _, EmptyString => false
  end.

Fixpoint substring_ci (q s : string) : bool :=
  prefix_ci q s ||
  match s with
  | EmptyString => false
  | String _ s' => substring_ci q s'
  end.

(** The words of [ws] with a meaning that targets [l], each with those
    meanings only. *)
Definition translations_to (l : string) (ws : list Word.t) : list Word.t :=
  map (λ w, Word.set_meanings (List.filter (targets l) (Word.meanings w)) w)
      (List.filter (λ w, existsb (targets l) (Word.meanings w)) ws).

(** ** Data for the examples

    [demo_platform] lets the handlers run on examples; it has none of the
    security of the functions it stands for. *)

Definition demo_platform : Platform := {|
  SECRET_KEY := "defaultsecretkey";
  hs256 key payload :=
    key +:+ ":" +:+
    match payload !! "sub" with Some (VStr s) => s | _ => EmptyString end;
  pwd_hash slt password := slt +:+ "$" +:+ password;
  pwd_verify password hashed := bool_decide (hashed = "salt$" +:+ password)
|}.

Definition ann : User.t :=
  User.Build "u-ann" "ann@example.com" "ann" "salt$secret" CONTRIBUTOR 0 0 100 100.

Definition bob : User.t :=
  User.Build "u-bob" "bob@example.com" "bob" "salt$hunter2" USER 3 25 100 100.

Definition mod_user : User.t :=
  User.Build "u-mod" "mod@example.com" "mod" "salt$m" MODERATOR 0 0 100 100.

Definition meaning (l text : string) : gmap string string :=
  {[ "language_id" := l; "meaning" := text ]}.

Definition word_cat : Word.t :=
  Word.Build "w-cat" "cat" "en" [meaning "es" "gato"; meaning "fr" "chat"]
    "u-ann" "u-ann" 100 100.

Definition word_Cats : Word.t :=
  Word.Build "w-cats" "Cats" "en" [meaning "es" "gatos"] "u-ann" "u-ann" 100 100.

Definition word_concatenate : Word.t :=
  Word.Build "w-conc" "concatenate" "en" [meaning "fr" "concatener"]
    "u-bob" "u-bob" 100 100.

Definition word_dog : Word.t :=
  Word.Build "w-dog" "dog" "en" [] "u-bob" "u-bob" 100 100.

Definition demo_db : database :=
  Database [ann; bob; mod_user] []
    (map Word.dict [word_cat; word_Cats; word_concatenate; word_dog]) [].

Definition demo_ambient (tag : string) (n : Z) : ambient :=
  Ambient (200 + n) ("w-" +:+ tag) ("c-" +:+ tag) ("oid-" +:+ tag) "salt".

(** ** Reading the counters

    What the last two writes of [create_word] and [update_word] make of the
    users, from the user the request started with. *)
Definition advanced (current_user : User.t) (us : list User.t) : list User.t :=
  let us :=
    update_one (User.has_id (User.id current_user))
               User.inc_contribution_count us in
  if User.contribution_count current_user mod 10 =? 0
  then update_one (User.has_id (User.id current_user))
                  User.inc_contributor_rank us
  else us.

(** The record [advanced] leaves where the acting user's was. *)
Definition advanced_user (current_user : User.t) : User.t :=
  let u := User.inc_contribution_count current_user in
  if User.contribution_count current_user mod 10 =? 0
  then User.inc_contributor_rank u
  else u.

Definition count_of (db : database) (username : string) : option Z :=
  User.contribution_count <$> get_user db username.

Definition rank_of (db : database) (username : string) : option Z :=
  User.contributor_rank <$> get_user db username.

(** How many of the [n] counts from [c] on are divisible by 10. *)
Fixpoint bumps (c : Z) (n : nat) : Z :=
  match n with
  | O => 0
  | S n' => (if c mod 10 =? 0 then 1 else 0) + bumps (c + 1) n'
  end.

Definition ten_creates : list (action * ambient) :=
  map (λ '(tag, n),
         (CreateWord (WordCreate.Build ("x" +:+ tag) "en" []),
          demo_ambient tag n))
      [("0", 0); ("1", 1); ("2", 2); ("3", 3); ("4", 4);
       ("5", 5); ("6", 6); ("7", 7); ("8", 8); ("9", 9)].

(** ** Reading a token *)

Definition token_claim (k : string) (tok : token) : option value :=
  match tok with
  | JWT claims _ => claims !! k
  | Opaque _ => None
  end.

Definition demo_token : token :=
  create_access_token (platform := demo_platform)
    {[ "sub" := VStr "ann" ]} (Some 0) 1000.

(** ** The pattern of a literal string *)

Fixpoint chars (q : string) : list Regex.t :=
  match q with
  | EmptyString => []
  | String c q' => Regex.Chr c :: chars q'
  end.

Definition literal (q : string) : Regex.t := Regex.seq (chars q).

(** ** Data for the examples with metacharacters and with many records *)

Definition word_cab : Word.t :=
  Word.Build "w-cab" "cab" "en" [] "u-ann" "u-ann" 100 100.

Definition word_abc : Word.t :=
  Word.Build "w-abc" "abc" "en" [] "u-ann" "u-ann" 100 100.

Definition regex_db : database :=
  Database [ann] [] (map Word.dict [word_cab; word_abc; word_dog]) [].

Definition lang_en : Language.t :=
  Language.Build "l-en" "English" "en" (Some "English") 100 100.

Definition contribution_ann : Contribution.t :=
  Contribution.Build "c-1" "u-ann" "w-cat" "add" {[ "word" := VStr "cat" ]} 100.

Definition many_db : database :=
  Database [ann] (replicate 1001 lang_en)
    (replicate 1001 (Word.dict word_cat)) (replicate 1001 contribution_ann).

(** ** Who may do what *)

(** The requested username or email belongs to a stored user. *)
Definition taken (db : database) (user_data : UserCreate.t) : Prop :=
  ∃ u, u ∈ users db
       ∧ (User.username u = UserCreate.username user_data
          ∨ User.email u = UserCreate.email user_data).

(** The role is [moderator] or [admin]. *)
Definition privileged (u : User.t) : Prop :=
  User.role u = MODERATOR ∨ User.role u = ADMIN.

(** ** Values that no model field of type [str] accepts *)


(** The word [w] after an update by the user [uid] at the time [now] that
    gives the text [t] and the meanings [ms], where it gives them. *)
Definition patched (w : Word.t) (t : option string)
    (ms : option (list (gmap string string))) (uid : string) (now : Z)
  : Word.t :=
  Word.Build (Word.id w) (default (Word.word w) t) (Word.language_id w)
    (default (Word.meanings w) ms) (Word.created_by w) uid
    (Word.created_at w) now.

(** The contribution [update_word] records. *)
Definition edit_of (word_id : string) (word_data : gmap string value)
    (current_user : User.t) (e : ambient) : Contribution.t :=
  Contribution.Build (uuid4_a e) (User.id current_user) word_id "edit"
    word_data (utcnow e).

(** ** The ledger and the counters *)

(** Every user's [contribution_count] is the number of their entries in
    the ledger. *)
Definition ledger_consistent (db : database) : Prop :=
  ∀ u, u ∈ users db →
    User.contribution_count u
    = Z.of_nat (length (find (Contribution.has_user_id (User.id u))
                          (contributions db))).

(** [u'] is the account [u] with counters that are no lower. *)
Definition grown (u u' : User.t) : Prop :=
  User.id u' = User.id u
  ∧ User.email u' = User.email u
  ∧ User.username u' = User.username u
  ∧ User.hashed_password u' = User.hashed_password u
  ∧ User.role u' = User.role u
  ∧ User.created_at u' = User.created_at u
  ∧ User.updated_at u' = User.updated_at u
  ∧ User.contribution_count u ≤ User.contribution_count u'
  ∧ User.contributor_rank u ≤ User.contributor_rank u'.

(** The keys of a word document that [update_word] writes. *)
Definition written_keys : list string :=
  ["word"; "meanings"; "last_modified_by"; "updated_at"].

(** The word and the contribution [create_word] makes. *)
Definition new_word_of (word_data : WordCreate.t) (current_user : User.t)
    (e : ambient) : Word.t :=
  Word.Build (uuid4_a e) (WordCreate.word word_data)
    (WordCreate.language_id word_data) (WordCreate.meanings word_data)
    (User.id current_user) (User.id current_user) (utcnow e) (utcnow e).

Definition add_of (word_data : WordCreate.t) (current_user : User.t)
    (e : ambient) : Contribution.t :=
  Contribution.Build (uuid4_b e) (User.id current_user) (uuid4_a e) "add"
    {[ "word" := VStr (WordCreate.word word_data) ]} (utcnow e).

(** A database whose ledger is empty and whose counters are at 0. *)
Definition fresh_db : database :=
  Database [ann; mod_user] []
    (map Word.dict [word_cat; word_Cats; word_concatenate; word_dog]) [].

(** Requests that update the word [w-dog] twice, with a creation between. *)
Definition dog_edits : list (action * ambient) :=
  [(UpdateWord "w-dog" {[ "word" := VStr "hound"; "id" := VStr "w-x" ]},
    demo_ambient "1" 1);
   (CreateWord (WordCreate.Build "bird" "en" []), demo_ambient "2" 2);
   (UpdateWord "w-dog" {[ "meanings" := VNull; "created_by" := VStr "u-x" ]},
    demo_ambient "3" 3)].

(** * Properties *)

(** ** Collections *)

Lemma find_one_None {A} (q : A → bool) (coll : list A) :
  find_one q coll = None ↔ ∀ x, x ∈ coll → q x = false.
Proof.
  unfold find_one. induction coll as [|y coll IH]; simpl.
  - split; [intros _ x Hx; inversion Hx | done].
  - destruct (q y) eqn:Hy.
    + split; [done|]. intros Hall.
      rewrite (Hall y) in Hy by constructor. done.
    + rewrite IH. split.
      * intros Hall x Hx. inversion Hx; subst; auto.
      * intros Hall x Hx. apply Hall. by constructor.
Qed.

Lemma find_one_Some {A} (q : A → bool) (coll : list A) (x : A) :
  find_one q coll = Some x → x ∈ coll ∧ q x = true.
Proof.
  unfold find_one. intros Hf. apply List.find_some in Hf as [Hin Hq].
  split; [by apply list_elem_of_In | done].
Qed.

(** After [update_one], the filter that selected the document finds the
    updated one, when the update leaves the filtered field alone. *)
Lemma find_one_update_one {A} (q : A → bool) (f : A → A) (coll : list A) :
  (∀ x, q (f x) = q x) →
  find_one q (update_one q f coll) = f <$> find_one q coll.
Proof.
  intros Hq. unfold find_one. induction coll as [|y coll IH]; simpl; [done|].
  destruct (q y) eqn:Hy; simpl.
  - by rewrite Hq, Hy.
  - by rewrite Hy.
Qed.

(** Two filters that find the same document still do after one of them
    was used to update it. *)
Lemma find_one_update_one_other {A} (q1 q2 : A → bool) (f : A → A)
    (coll : list A) (u : A) :
  (∀ x, q1 (f x) = q1 x) →
  find_one q1 coll = Some u →
  find_one q2 coll = Some u →
  find_one q1 (update_one q2 f coll) = Some (f u).
Proof.
  intros Hq1. unfold find_one.
  induction coll as [|y coll IH]; simpl; [done|].
  destruct (q2 y) eqn:H2; simpl.
  - intros H1 [= ->]. rewrite Hq1. destruct (q1 u) eqn:H1u; [done|].
    apply List.find_some in H1 as [_ Hu]. congruence.
  - intros H1 Hfind2. destruct (q1 y) eqn:H1y.
    + injection H1 as ->. apply List.find_some in Hfind2 as [_ Hu].
      congruence.
    + by apply IH.
Qed.

(** ** The counters of the acting user *)

Lemma create_word_users db word_data current_user e :
  users (fst (create_word db word_data current_user e))
  = advanced current_user (users db).
Proof.
  unfold create_word, advanced.
  destruct (User.contribution_count current_user mod 10 =? 0); reflexivity.
Qed.

Lemma update_word_users db word_id word_data current_user e :
  is_Some (find_one (id_is word_id) (words db)) →
  users (fst (update_word db word_id word_data current_user e))
  = advanced current_user (users db).
Proof.
  intros [word Hword]. unfold update_word, advanced. rewrite Hword.
  destruct (User.contribution_count current_user mod 10 =? 0); simpl;
    destruct (find_one _ (update_one _ _ _)) as [updated_word|];
    try destruct (Word.parse updated_word); reflexivity.
Qed.

Lemma update_word_Ok_found db word_id word_data current_user e :
  is_Ok (snd (update_word db word_id word_data current_user e)) = true →
  is_Some (find_one (id_is word_id) (words db)).
Proof.
  unfold update_word. destruct (find_one (id_is word_id) (words db)); [eauto|].
  discriminate.
Qed.

Lemma advanced_find_by_id cu us :
  find_one (User.has_id (User.id cu)) us = Some cu →
  find_one (User.has_id (User.id cu)) (advanced cu us)
  = Some (advanced_user cu).
Proof.
  intros Hfind. unfold advanced, advanced_user.
  destruct (User.contribution_count cu mod 10 =? 0).
  - rewrite !find_one_update_one by done. by rewrite Hfind.
  - rewrite find_one_update_one by done. by rewrite Hfind.
Qed.

Lemma advanced_find_by_username name cu us :
  find_one (User.has_username name) us = Some cu →
  find_one (User.has_id (User.id cu)) us = Some cu →
  find_one (User.has_username name) (advanced cu us)
  = Some (advanced_user cu).
Proof.
  intros Hname Hid. unfold advanced, advanced_user.
  assert (find_one (User.has_username name)
            (update_one (User.has_id (User.id cu))
               User.inc_contribution_count us)
          = Some (User.inc_contribution_count cu)) as Hname1
    by (by apply find_one_update_one_other).
  assert (find_one (User.has_id (User.id cu))
            (update_one (User.has_id (User.id cu))
               User.inc_contribution_count us)
          = Some (User.inc_contribution_count cu)) as Hid1
    by (rewrite find_one_update_one by done; by rewrite Hid).
  destruct (User.contribution_count cu mod 10 =? 0); [|done].
  by apply (find_one_update_one_other _ (User.has_id (User.id cu))
              _ _ (User.inc_contribution_count cu)).
Qed.

(** C1.  The acting user of a successful [create_word] or [update_word] is
    the user the request read from the database, stored under an id that
    finds no user before them.  After
    the request the user stored under that id has a [contribution_count] one
    higher; the [contributor_rank] is one higher when the count read at the
    start of the request is divisible by 10 and is unchanged when it is not;
    no other field of the user has changed. *)
Theorem counters_advance_once
    (db : database) (current_user : User.t) (a : action) (e : ambient) :
  find_one (User.has_id (User.id current_user)) (users db) = Some current_user →
  let r :=
    match a with
    | CreateWord word_data => create_word db word_data current_user e
    | UpdateWord word_id word_data =>
        update_word db word_id word_data current_user e
    end in
  is_Ok (snd r) = true →
  ∃ u,
    find_one (User.has_id (User.id current_user)) (users (fst r)) = Some u
    ∧ User.contribution_count u = User.contribution_count current_user + 1
    ∧ (User.contributor_rank u = User.contributor_rank current_user + 1
       ↔ User.contribution_count current_user mod 10 = 0)
    ∧ (User.contribution_count current_user mod 10 ≠ 0 →
       User.contributor_rank u = User.contributor_rank current_user)
    ∧ User.id u = User.id current_user
    ∧ User.email u = User.email current_user
    ∧ User.username u = User.username current_user
    ∧ User.hashed_password u = User.hashed_password current_user
    ∧ User.role u = User.role current_user
    ∧ User.created_at u = User.created_at current_user
    ∧ User.updated_at u = User.updated_at current_user.
Proof.
  intros Hfind r Hok. exists (advanced_user current_user).
  assert (users (fst r) = advanced current_user (users db)) as ->.
  { subst r. destruct a as [word_data|word_id word_data].
    - apply create_word_users.
    - apply update_word_users. by eapply update_word_Ok_found. }
  split; [by apply advanced_find_by_id|].
  unfold advanced_user.
  destruct (Z.eqb_spec (User.contribution_count current_user mod 10) 0)
    as [H0|H0]; simpl; repeat split; try done; try lia.
Qed.

Lemma counters_advance_once_witness :
  (∃ u,
     find_one (User.has_id "u-ann")
       (users (fst (create_word demo_db (WordCreate.Build "x" "en" []) ann
                      (demo_ambient "a" 0)))) = Some u
     ∧ User.contribution_count u = 1 ∧ User.contributor_rank u = 1)
  ∧ (∃ u,
       find_one (User.has_id "u-bob")
         (users (fst (update_word demo_db "w-dog" {[ "word" := VStr "hound" ]}
                        bob (demo_ambient "b" 1)))) = Some u
       ∧ User.contribution_count u = 26 ∧ User.contributor_rank u = 3).
Proof.
  split.
  - destruct (counters_advance_once demo_db ann
                (CreateWord (WordCreate.Build "x" "en" []))
                (demo_ambient "a" 0) eq_refl eq_refl)
      as (u & Hu & Hcount & Hrank & _).
    exists u. split; [exact Hu|]. split; [exact Hcount|].
    apply Hrank. reflexivity.
  - destruct (counters_advance_once demo_db bob
                (UpdateWord "w-dog" {[ "word" := VStr "hound" ]})
                (demo_ambient "b" 1) eq_refl)
      as (u & Hu & Hcount & _ & Hrank & _); [vm_compute; reflexivity|].
    exists u. split; [exact Hu|]. split; [exact Hcount|].
    apply Hrank. vm_compute. discriminate.
Defined.

(** ** Ten requests in a row *)

Lemma request_step db name u a e :
  get_user db name = Some u →
  find_one (User.has_id (User.id u)) (users db) = Some u →
  is_Ok (snd (request db name a e)) = true →
  get_user (fst (request db name a e)) name = Some (advanced_user u)
  ∧ find_one (User.has_id (User.id (advanced_user u)))
      (users (fst (request db name a e))) = Some (advanced_user u).
Proof.
  intros Hname Hid. unfold request. rewrite Hname. intros Hok.
  assert (users (fst match a with
                     | CreateWord word_data => create_word db word_data u e
                     | UpdateWord word_id word_data =>
                         update_word db word_id word_data u e
                     end) = advanced u (users db)) as Husers.
  { destruct a as [word_data|word_id word_data].
    - apply create_word_users.
    - apply update_word_users. by eapply update_word_Ok_found. }
  unfold get_user. rewrite Husers.
  assert (User.id (advanced_user u) = User.id u) as ->.
  { unfold advanced_user. by destruct (_ =? _). }
  split; [by apply advanced_find_by_username | by apply advanced_find_by_id].
Qed.

Lemma advanced_user_count u :
  User.contribution_count (advanced_user u) = User.contribution_count u + 1.
Proof. unfold advanced_user. by destruct (_ =? _). Qed.

Lemma advanced_user_rank u :
  User.contributor_rank (advanced_user u)
  = User.contributor_rank u
    + (if User.contribution_count u mod 10 =? 0 then 1 else 0).
Proof. unfold advanced_user. destruct (_ =? _); simpl; lia. Qed.

Lemma run_counters reqs : ∀ db name u,
  get_user db name = Some u →
  find_one (User.has_id (User.id u)) (users db) = Some u →
  Forall (λ r, is_Ok (snd r) = true) (run db name reqs) →
  ∃ u',
    get_user (default db (last (map fst (run db name reqs)))) name = Some u'
    ∧ User.contribution_count u'
      = User.contribution_count u + Z.of_nat (length reqs)
    ∧ User.contributor_rank u'
      = User.contributor_rank u + bumps (User.contribution_count u) (length reqs).
Proof.
  induction reqs as [|[a e] reqs IH]; intros db name u Hname Hid Hall.
  - exists u. simpl. split; [done|]. lia.
  - simpl in Hall. apply Forall_cons in Hall as [Hok Hall].
    destruct (request_step db name u a e Hname Hid Hok) as [Hname' Hid'].
    destruct (IH _ _ _ Hname' Hid' Hall) as (u' & Hu' & Hcount & Hrank).
    exists u'. split.
    + simpl. rewrite last_cons.
      destruct (last (map fst (run (fst (request db name a e)) name reqs)));
        simpl in *; done.
    + rewrite Hcount, Hrank, advanced_user_count, advanced_user_rank.
      cbn [length bumps]. rewrite Nat2Z.inj_succ. split; lia.
Qed.

Lemma run_take reqs : ∀ db name k,
  run db name (take k reqs) = take k (run db name reqs).
Proof.
  induction reqs as [|[a e] reqs IH]; intros db name [|k]; simpl; try done.
  by rewrite IH.
Qed.

(** C2, as the code has it.  A user with [contribution_count] 0 and
    [contributor_rank] 0, found by username and by id alike, makes ten
    successful requests to [create_word] or [update_word], one after the
    other.  After the first [k] of them the
    count is [k]; the rank is 1 from the first request on, so it was
    incremented once over the ten, by the request that read the count 0,
    and the request that read 9 left it alone. *)
Theorem ten_requests_rank_once
    (db : database) (username : string) (u : User.t)
    (reqs : list (action * ambient)) :
  get_user db username = Some u →
  find_one (User.has_id (User.id u)) (users db) = Some u →
  User.contribution_count u = 0 →
  User.contributor_rank u = 0 →
  length reqs = 10%nat →
  Forall (λ r, is_Ok (snd r) = true) (run db username reqs) →
  ∀ k : nat, (k ≤ 10)%nat →
    count_of (after db username reqs k) username = Some (Z.of_nat k)
    ∧ rank_of (after db username reqs k) username
      = Some (if decide (k = 0%nat) then 0 else 1).
Proof.
  intros Hname Hid Hcount Hrank Hlen Hall k Hk.
  assert (Forall (λ r, is_Ok (snd r) = true)
            (run db username (take k reqs))) as Hall'.
  { rewrite run_take. by apply Forall_take. }
  destruct (run_counters _ _ _ _ Hname Hid Hall') as (u' & Hu' & Hc & Hr).
  unfold count_of, rank_of, after. rewrite Hu'. simpl.
  rewrite Hc, Hr, Hcount, Hrank, length_take, Hlen.
  replace (k `min` 10)%nat with k by lia.
  split; [f_equal; lia|]. f_equal.
  do 11 (destruct k as [|k]; [vm_compute; reflexivity|]). lia.
Qed.

Lemma all_ok (rs : list (database * result Word.t)) :
  forallb (λ r, is_Ok (snd r)) rs = true →
  Forall (λ r, is_Ok (snd r) = true) rs.
Proof.
  induction rs as [|r rs IH]; simpl; [constructor|].
  intros [Hr Hrs]%andb_true_iff. constructor; auto.
Qed.

Lemma ten_requests_rank_once_witness :
  count_of (after demo_db "ann" ten_creates 10) "ann" = Some 10
  ∧ rank_of (after demo_db "ann" ten_creates 10) "ann" = Some 1.
Proof.
  apply (ten_requests_rank_once demo_db "ann" ann ten_creates
           eq_refl eq_refl eq_refl eq_refl eq_refl).
  - apply all_ok. vm_compute. reflexivity.
  - lia.
Defined.

Lemma tenth_request_no_rank :
  count_of (after demo_db "ann" ten_creates 9) "ann" = Some 9
  ∧ count_of (after demo_db "ann" ten_creates 10) "ann" = Some 10
  ∧ rank_of (after demo_db "ann" ten_creates 10) "ann"
    = rank_of (after demo_db "ann" ten_creates 9) "ann"
  ∧ rank_of (after demo_db "ann" ten_creates 0) "ann" = Some 0
  ∧ rank_of (after demo_db "ann" ten_creates 1) "ann" = Some 1.
Proof. vm_compute. repeat split. Qed.

(** ** What [update_word] writes *)

(** The [update_data] of [update_word]. *)
Lemma update_data_lookup (base word_data : doc) (k : string) :
  map_fold
    (λ field value (update_data : doc),
       if bool_decide (field ∈ ["word"; "meanings"])
       then <[field := value]> update_data
       else update_data)
    base word_data !! k
  = if bool_decide (k ∈ ["word"; "meanings"])
    then match word_data !! k with Some v => Some v | None => base !! k end
    else base !! k.
Proof.
  apply (map_fold_weak_ind (λ (r : doc) (m : doc),
    r !! k = if bool_decide (k ∈ ["word"; "meanings"])
             then match m !! k with Some v => Some v | None => base !! k end
             else base !! k)).
  - rewrite lookup_empty. by case_bool_decide.
  - intros i x m r Hi IH.
    destruct (decide (i = k)) as [->|Hne].
    + rewrite lookup_insert_eq. case_bool_decide.
      * by rewrite lookup_insert_eq.
      * done.
    + rewrite (lookup_insert_ne m) by done.
      destruct (bool_decide (i ∈ ["word"; "meanings"])); [|done].
      by rewrite lookup_insert_ne.
Qed.

Lemma id_is_set_fields word_id (upd d : doc) :
  upd !! "id" = None →
  id_is word_id (set_fields upd d) = id_is word_id d.
Proof.
  intros Hnone. unfold id_is, field_has, set_fields.
  by rewrite lookup_union_r.
Qed.

Lemma update_one_const {A} (q : A → bool) (f : A → A) (coll : list A) x :
  find_one q coll = Some x →
  update_one q f coll = update_one q (λ _, f x) coll.
Proof.
  unfold find_one. induction coll as [|y coll IH]; simpl; [done|].
  destruct (q y); [by intros [= ->]|]. intros Hx. by rewrite IH.
Qed.

(** C3.  [update_word] on an existing word writes the [word] and
    [meanings] of the payload, [last_modified_by] (the acting user) and
    [updated_at] (the time of the request) into the stored document, and
    leaves every other key of it as it was, whatever the payload holds under
    that key; no other document of the collection changes.  It appends one
    contribution of type [edit] whose [change_details] is the payload as
    submitted. *)
Theorem update_word_writes
    (db : database) (word_id : string) (word_data : gmap string value)
    (current_user : User.t) (e : ambient) (word : doc) :
  find_one (id_is word_id) (words db) = Some word →
  let db' := fst (update_word db word_id word_data current_user e) in
  ∃ word' : doc,
    find_one (id_is word_id) (words db') = Some word'
    ∧ words db' = update_one (id_is word_id) (λ _, word') (words db)
    ∧ (∀ k, k ∈ ["word"; "meanings"] →
         word' !! k
         = match word_data !! k with Some v => Some v | None => word !! k end)
    ∧ word' !! "last_modified_by" = Some (VStr (User.id current_user))
    ∧ word' !! "updated_at" = Some (VTime (utcnow e))
    ∧ (∀ k, k ∉ ["word"; "meanings"; "last_modified_by"; "updated_at"] →
         word' !! k = word !! k)
    ∧ contributions db'
      = contributions db
        ++ [Contribution.Build (uuid4_a e) (User.id current_user) word_id
              "edit" word_data (utcnow e)].
Proof.
  intros Hword db'.
  set (base := (<["last_modified_by" := VStr (User.id current_user)]>
                  (<["updated_at" := VTime (utcnow e)]> ∅) : doc)).
  set (update_data :=
    map_fold
      (λ field value (update_data : doc),
         if bool_decide (field ∈ ["word"; "meanings"])
         then <[field := value]> update_data
         else update_data)
      base word_data).
  assert (∀ k, update_data !! k
    = if bool_decide (k ∈ ["word"; "meanings"])
      then match word_data !! k with Some v => Some v | None => base !! k end
      else base !! k) as Hupd by (intros k; apply update_data_lookup).
  assert (words db'
          = update_one (id_is word_id) (set_fields update_data) (words db)
          ∧ contributions db'
            = contributions db
              ++ [Contribution.Build (uuid4_a e) (User.id current_user) word_id
                    "edit" word_data (utcnow e)]) as [Hwords Hcontr].
  { subst db'. unfold update_word. rewrite Hword. fold base. fold update_data.
    destruct (User.contribution_count current_user mod 10 =? 0); simpl;
      destruct (find_one _ (update_one _ _ _)) as [updated_word|];
      try destruct (Word.parse updated_word); done. }
  exists (set_fields update_data word).
  assert (∀ k, k ≠ "word" → k ≠ "meanings" →
               bool_decide (k ∈ ["word"; "meanings"]) = false) as Hother.
  { intros k Hw Hm. apply bool_decide_eq_false.
    rewrite !elem_of_cons, elem_of_nil. tauto. }
  assert (update_data !! "id" = None) as Hid
    by (by rewrite Hupd, Hother).
  split; [|split; [|split; [|split; [|split; [|split]]]]].
  - rewrite Hwords, find_one_update_one, Hword; [done|].
    intros x. by apply id_is_set_fields.
  - rewrite Hwords. by apply update_one_const.
  - intros k Hk. unfold set_fields. rewrite lookup_union, Hupd.
    rewrite bool_decide_eq_true_2 by done.
    assert (base !! k = None) as ->.
    { rewrite !elem_of_cons, elem_of_nil in Hk.
      destruct Hk as [->|[->|[]]]; done. }
    destruct (word_data !! k), (word !! k); done.
  - unfold set_fields. rewrite lookup_union, Hupd, Hother by done.
    subst base. rewrite lookup_insert_eq. by destruct (word !! _).
  - unfold set_fields. rewrite lookup_union, Hupd, Hother by done.
    subst base. rewrite lookup_insert_ne, lookup_insert_eq by done.
    by destruct (word !! _).
  - intros k Hk. unfold set_fields.
    rewrite !elem_of_cons, elem_of_nil in Hk.
    assert (k ≠ "word" ∧ k ≠ "meanings"
            ∧ k ≠ "last_modified_by" ∧ k ≠ "updated_at")
      as (Hk1 & Hk2 & Hk3 & Hk4)
      by (repeat split; intros ->; apply Hk; auto 10).
    rewrite lookup_union, Hupd, Hother by done.
    subst base. rewrite !lookup_insert_ne, lookup_empty by done.
    by destruct (word !! k).
  - done.
Qed.

Lemma update_word_writes_witness :
  ∃ word' : doc,
    find_one (id_is "w-dog")
      (words (fst (update_word demo_db "w-dog"
                     {[ "word" := VStr "hound"; "language_id" := VStr "xx";
                        "note" := VInt 1 ]} bob (demo_ambient "b" 1))))
    = Some word'
    ∧ word' !! "word" = Some (VStr "hound")
    ∧ word' !! "language_id" = Some (VStr "en")
    ∧ word' !! "note" = None.
Proof.
  destruct (update_word_writes demo_db "w-dog"
              {[ "word" := VStr "hound"; "language_id" := VStr "xx";
                 "note" := VInt 1 ]} bob (demo_ambient "b" 1)
              (Word.dict word_dog) eq_refl)
    as (word' & Hfind & _ & Hset & _ & _ & Hkeep & _).
  exists word'. split; [exact Hfind|]. split; [|split].
  - rewrite Hset by (rewrite !elem_of_cons; auto). reflexivity.
  - rewrite Hkeep; [reflexivity|].
    rewrite !elem_of_cons, elem_of_nil. intros [H|[H|[H|[H|[]]]]]; discriminate H.
  - rewrite Hkeep; [reflexivity|].
    rewrite !elem_of_cons, elem_of_nil. intros [H|[H|[H|[H|[]]]]]; discriminate H.
Defined.

(** ** Tokens *)

Lemma authenticate_user_username {platform : Platform} db username password user :
  authenticate_user db username password = Some user →
  get_user db username = Some user ∧ User.username user = username.
Proof.
  unfold authenticate_user. destruct (get_user db username) as [u|] eqn:Hu;
    [|done].
  destruct (negb _); [done|]. intros [= ->]. split; [done|].
  apply find_one_Some in Hu as [_ Hu]. unfold User.has_username in Hu.
  by apply bool_decide_eq_true in Hu.
Qed.

(** C4, as the code has it.  The token [login_for_access_token] issues for
    user [U] at time [now] carries the subject [U] and the expiry
    [now + 30 minutes].  Before the expiry [get_current_user] resolves it to
    the stored user named [U]; after the expiry it answers 401, as it does
    for every token whose signature is not the one of its payload and for
    every token without a subject.  [create_access_token] puts the expiry at
    [now + ttl] for a ttl that is not zero, and at [now + 15 minutes] when
    no ttl is passed and also when the ttl passed is zero. *)
Theorem token_lifetime {platform : Platform}
    (db : database) (U password : string) (now : Z) (tok : token) :
  login_for_access_token db U password now = Ok tok →
  token_claim "sub" tok = Some (VStr U)
  ∧ token_claim "exp" tok = Some (VTime (now + minutes 30))
  ∧ (∀ later, later < now + minutes 30 →
       ∃ user, get_current_user db tok later = Ok user
               ∧ User.username user = U)
  ∧ (∀ db' later, later < now + minutes 30 →
       get_current_user db' tok later
       = match get_user db' U with
         | Some user => Ok user
         | None => credentials_exception
         end)
  ∧ (∀ db' later, now + minutes 30 < later →
       get_current_user db' tok later = HTTPException 401 "Could not validate credentials")
  ∧ (∀ db' claims sig later,
       sig ≠ hs256 SECRET_KEY claims →
       get_current_user db' (JWT claims sig) later
       = HTTPException 401 "Could not validate credentials")
  ∧ (∀ db' claims sig later,
       claims !! "sub" = None →
       get_current_user db' (JWT claims sig) later
       = HTTPException 401 "Could not validate credentials")
  ∧ (∀ data ttl t,
       ttl ≠ 0 →
       token_claim "exp" (create_access_token data (Some ttl) t)
       = Some (VTime (t + ttl)))
  ∧ (∀ data t,
       token_claim "exp" (create_access_token data None t)
       = Some (VTime (t + minutes 15))
       ∧ token_claim "exp" (create_access_token data (Some 0) t)
         = Some (VTime (t + minutes 15))).
Proof.
  intros Hlogin. unfold login_for_access_token in Hlogin.
  destruct (authenticate_user db U password) as [user|] eqn:Hauth; [|done].
  apply authenticate_user_username in Hauth as [Huser Hname].
  injection Hlogin as <-. rewrite Hname.
  assert (∀ db' later,
    get_current_user db'
      (create_access_token {[ "sub" := VStr U ]}
         (Some (minutes ACCESS_TOKEN_EXPIRE_MINUTES)) now) later
    = if now + minutes 30 <=? later then credentials_exception
      else match get_user db' U with
           | Some user => Ok user
           | None => credentials_exception
           end) as Hresolve.
  { intros db' later. unfold get_current_user, create_access_token, jwt_encode,
      jwt_decode. simpl. rewrite bool_decide_eq_true_2 by done.
    rewrite lookup_insert_eq.
    change (now + minutes ACCESS_TOKEN_EXPIRE_MINUTES) with (now + minutes 30).
    destruct (now + minutes 30 <=? later); [done|].
    rewrite lookup_insert_ne by done. by rewrite lookup_singleton_eq. }
  split; [|split; [|split; [|split; [|split; [|split; [|split; [|split]]]]]]].
  - simpl. rewrite lookup_insert_ne by done. by rewrite lookup_singleton_eq.
  - simpl. by rewrite lookup_insert_eq.
  - intros later Hlater. exists user. rewrite Hresolve, Huser.
    destruct (Z.leb_spec (now + minutes 30) later); [lia|done].
  - intros db' later Hlater. rewrite Hresolve.
    destruct (Z.leb_spec (now + minutes 30) later); [lia|done].
  - intros db' later Hlater. rewrite Hresolve.
    destruct (Z.leb_spec (now + minutes 30) later); [done|lia].
  - intros db' claims sig later Hsig. unfold get_current_user, jwt_decode.
    by rewrite bool_decide_eq_false_2.
  - intros db' claims sig later Hsub. unfold get_current_user, jwt_decode.
    repeat case_match; simplify_eq; done.
  - intros data ttl t Httl. unfold create_access_token. simpl.
    rewrite lookup_insert_eq. by destruct (Z.eqb_spec ttl 0).
  - intros data t. unfold create_access_token. simpl.
    by rewrite !lookup_insert_eq.
Qed.

Lemma token_lifetime_witness :
  (∃ user,
     get_current_user (platform := demo_platform) demo_db
       (create_access_token (platform := demo_platform)
          {[ "sub" := VStr "ann" ]} (Some (minutes 30)) 1000) 2799
     = Ok user ∧ User.username user = "ann")
  ∧ get_current_user (platform := demo_platform) demo_db
      (create_access_token (platform := demo_platform)
         {[ "sub" := VStr "ann" ]} (Some (minutes 30)) 1000) 2801
    = HTTPException 401 "Could not validate credentials".
Proof.
  destruct (token_lifetime (platform := demo_platform) demo_db "ann" "secret" 1000 _
              eq_refl) as (_ & _ & Hbefore & _ & Hafter & _).
  split.
  - apply Hbefore. reflexivity.
  - apply Hafter. reflexivity.
Defined.

Lemma zero_ttl_falls_back :
  token_claim "exp" demo_token = Some (VTime (1000 + minutes 15))
  ∧ token_claim "exp" demo_token ≠ Some (VTime (1000 + 0)).
Proof. split; [reflexivity|]. vm_compute. intros H. discriminate H. Qed.

(** ** Registration *)

(** C5.  When the requested username or the requested email belongs to a
    stored user, [register_user] answers 400 and leaves the database as it
    was.  Otherwise it appends one user to the collection, with the
    requested username and email, the role [contributor], and both
    counters at 0, and answers with that user. *)
Theorem register_user_once {platform : Platform}
    (db : database) (user_data : UserCreate.t) (e : ambient) :
  (taken db user_data →
     fst (register_user db user_data e) = db
     ∧ ∃ detail,
         snd (register_user db user_data e) = HTTPException 400 detail)
  ∧ (¬ taken db user_data →
     ∃ new : User.t,
       register_user db user_data e
       = (set_users (users db ++ [new]) db, Ok (UserResponse.of_user new))
       ∧ User.username new = UserCreate.username user_data
       ∧ User.email new = UserCreate.email user_data
       ∧ User.role new = CONTRIBUTOR
       ∧ User.contribution_count new = 0
       ∧ User.contributor_rank new = 0).
Proof.
  unfold register_user.
  destruct (find_one (User.has_username (UserCreate.username user_data))
              (users db)) as [u1|] eqn:Hname.
  { split; [eauto|]. intros Hfree. exfalso. apply Hfree.
    apply find_one_Some in Hname as [Hin Hq]. exists u1. split; [done|].
    left. by apply bool_decide_eq_true in Hq. }
  destruct (find_one (User.has_email (UserCreate.email user_data))
              (users db)) as [u2|] eqn:Hmail.
  { split; [eauto|]. intros Hfree. exfalso. apply Hfree.
    apply find_one_Some in Hmail as [Hin Hq]. exists u2. split; [done|].
    right. by apply bool_decide_eq_true in Hq. }
  split.
  - intros (u & Hin & [Hu|Hu]); exfalso.
    + pose proof (proj1 (find_one_None _ _) Hname u Hin) as Hq.
      unfold User.has_username in Hq. by apply bool_decide_eq_false in Hq.
    + pose proof (proj1 (find_one_None _ _) Hmail u Hin) as Hq.
      unfold User.has_email in Hq. by apply bool_decide_eq_false in Hq.
  - intros _. eexists. split; [reflexivity|]. done.
Qed.

Lemma register_user_once_witness :
  (fst (register_user (platform := demo_platform) demo_db
          (UserCreate.Build "other@example.com" "ann" "pw")
          (demo_ambient "r" 0)) = demo_db)
  ∧ (fst (register_user (platform := demo_platform) demo_db
            (UserCreate.Build "bob@example.com" "robert" "pw")
            (demo_ambient "r" 0)) = demo_db)
  ∧ ∃ new : User.t,
      users (fst (register_user (platform := demo_platform) demo_db
                    (UserCreate.Build "eve@example.com" "eve" "pw")
                    (demo_ambient "r" 0)))
      = users demo_db ++ [new]
      ∧ User.role new = CONTRIBUTOR.
Proof.
  split; [|split].
  - apply (register_user_once (platform := demo_platform) demo_db
             (UserCreate.Build "other@example.com" "ann" "pw")
             (demo_ambient "r" 0)).
    exists ann. split; [apply list_elem_of_here | left; reflexivity].
  - apply (register_user_once (platform := demo_platform) demo_db
             (UserCreate.Build "bob@example.com" "robert" "pw")
             (demo_ambient "r" 0)).
    exists bob. split; [apply list_elem_of_further, list_elem_of_here
                       | right; reflexivity].
  - destruct (proj2 (register_user_once (platform := demo_platform) demo_db
                       (UserCreate.Build "eve@example.com" "eve" "pw")
                       (demo_ambient "r" 0)))
      as (new & Hreg & _ & _ & Hrole & _).
    + intros (u & Hin & Hu). simpl in Hin.
      rewrite !elem_of_cons, elem_of_nil in Hin.
      destruct Hin as [->|[->|[->|[]]]]; destruct Hu as [Hu|Hu];
        discriminate Hu.
    + exists new. split; [|exact Hrole]. rewrite Hreg. reflexivity.
Defined.

(** ** Roles *)

Lemma privileged_decide u :
  bool_decide (User.role u ∈ [MODERATOR; ADMIN]) = true ↔ privileged u.
Proof.
  rewrite bool_decide_eq_true, !elem_of_cons, elem_of_nil.
  unfold privileged. tauto.
Qed.

Lemma role_gates_allowed db T current_user :
  User.id current_user = T ∨ privileged current_user →
  get_user_contributions db T current_user
  = Ok (take 1000 (List.filter (Contribution.has_user_id T)
                     (contributions db))).
Proof.
  intros Hallowed. unfold get_user_contributions.
  destruct (bool_decide (User.id current_user = T)) eqn:Hid; [done|].
  destruct (bool_decide (User.role current_user ∈ [MODERATOR; ADMIN]))
    eqn:Hrole; [done|].
  apply bool_decide_eq_false in Hid.
  assert (¬ privileged current_user) as Hnot.
  { rewrite <- privileged_decide. by rewrite Hrole. }
  tauto.
Qed.

(** C6.  [create_language] stores the language and answers with it when
    the role of the caller is [moderator] or [admin]; for every other role
    it answers 403 and stores nothing.  [get_user_contributions] for the
    user [T] answers with contributions when the caller is [T] or has the
    role [moderator] or [admin], and answers 403 otherwise. *)
Theorem role_gates
    (db : database) (language : Language.t) (T : string)
    (current_user : User.t) :
  (privileged current_user →
     create_language db language current_user
     = (set_languages (languages db ++ [language]) db, Ok language))
  ∧ (¬ privileged current_user →
     create_language db language current_user
     = (db, HTTPException 403 "Insufficient permissions"))
  ∧ (is_Ok (snd (create_language db language current_user)) = true
     ↔ privileged current_user)
  ∧ (User.id current_user = T ∨ privileged current_user →
     get_user_contributions db T current_user
     = Ok (take 1000 (List.filter (Contribution.has_user_id T)
                        (contributions db))))
  ∧ (¬ (User.id current_user = T ∨ privileged current_user) →
     get_user_contributions db T current_user
     = HTTPException 403 "Not authorized to view these contributions")
  ∧ (is_Ok (get_user_contributions db T current_user) = true
     ↔ User.id current_user = T ∨ privileged current_user).
Proof.
  pose proof (privileged_decide current_user) as Hpriv.
  unfold create_language, is_moderator, get_user_contributions.
  destruct (bool_decide (User.role current_user ∈ [MODERATOR; ADMIN]));
    destruct (decide (User.id current_user = T)) as [Hid|Hid];
    rewrite ?(bool_decide_eq_true_2 _ Hid), ?(bool_decide_eq_false_2 _ Hid);
    simpl; intuition (try done; try discriminate).
Qed.

Lemma role_gates_witness :
  create_language demo_db (Language.Build "l-eo" "Esperanto" "eo" None 300 300)
    mod_user
  = (set_languages [Language.Build "l-eo" "Esperanto" "eo" None 300 300] demo_db,
     Ok (Language.Build "l-eo" "Esperanto" "eo" None 300 300))
  ∧ create_language demo_db
      (Language.Build "l-eo" "Esperanto" "eo" None 300 300) ann
    = (demo_db, HTTPException 403 "Insufficient permissions")
  ∧ get_user_contributions demo_db "u-ann" bob
    = HTTPException 403 "Not authorized to view these contributions"
  ∧ is_Ok (get_user_contributions demo_db "u-ann" ann) = true
  ∧ is_Ok (get_user_contributions demo_db "u-ann" mod_user) = true.
Proof.
  split; [|split; [|split; [|split]]].
  - apply (role_gates demo_db _ "u-ann" mod_user). left. reflexivity.
  - apply (role_gates demo_db _ "u-ann" ann). intros [H|H]; discriminate H.
  - apply (role_gates demo_db (Language.Build "l-eo" "Esperanto" "eo" None 300 300)
             "u-ann" bob).
    intros [H|[H|H]]; discriminate H.
  - apply (role_gates demo_db (Language.Build "l-eo" "Esperanto" "eo" None 300 300)
             "u-ann" ann).
    left. reflexivity.
  - apply (role_gates demo_db (Language.Build "l-eo" "Esperanto" "eo" None 300 300)
             "u-ann" mod_user).
    right. left. reflexivity.
Defined.

(** ** Regular expressions *)

Lemma is_meta_false c :
  Regex.is_meta c = false →
  Ascii.eqb c "|" = false ∧ Ascii.eqb c "*" = false ∧ Ascii.eqb c "+" = false
  ∧ Ascii.eqb c "?" = false ∧ Ascii.eqb c "." = false ∧ Ascii.eqb c "^" = false
  ∧ Ascii.eqb c "$" = false ∧ Ascii.eqb c "\" = false.
Proof.
  unfold Regex.is_meta, Regex.metachars. simpl. intros Hmeta.
  repeat (apply orb_false_elim in Hmeta as [? Hmeta]). repeat split; done.
Qed.

Lemma parse_from_literal q : ∀ atoms,
  Regex.meta_free q = true →
  Regex.parse_from q atoms = Some (Regex.seq (rev atoms ++ chars q)).
Proof.
  induction q as [|c q IH]; intros atoms Hfree; simpl.
  - by rewrite app_nil_r.
  - simpl in Hfree. apply andb_true_iff in Hfree as [Hc Hq].
    apply negb_true_iff in Hc.
    destruct (is_meta_false c Hc) as (-> & -> & -> & -> & -> & -> & -> & ->).
    rewrite Hc, IH by done. simpl. by rewrite <- app_assoc.
Qed.

Lemma parse_literal q :
  Regex.meta_free q = true → Regex.parse q = Some (literal q).
Proof. intros Hfree. unfold Regex.parse. by rewrite parse_from_literal. Qed.

Lemma parse_anchored_literal q :
  Regex.meta_free q = true →
  Regex.parse (String "^" q) = Some (Regex.Cat Regex.Bol (literal q)).
Proof.
  intros Hfree. unfold Regex.parse. simpl. by rewrite parse_from_literal.
Qed.

Lemma match_here_Empty s : ∀ bos, Regex.match_here Regex.Empty bos s = false.
Proof. induction s as [|c s IH]; intros bos; simpl; [done|apply IH]. Qed.

Lemma match_here_Alt s : ∀ r1 r2 bos,
  Regex.match_here (Regex.Alt r1 r2) bos s
  = Regex.match_here r1 bos s || Regex.match_here r2 bos s.
Proof.
  induction s as [|c s IH]; intros r1 r2 bos; simpl.
  - by rewrite !orb_false_r.
  - rewrite IH.
    destruct (Regex.nullable r1 _ _), (Regex.nullable r2 _ _); simpl;
      rewrite ?orb_true_r; try done.
Qed.

Lemma match_here_Cat_Empty s : ∀ r bos,
  Regex.match_here (Regex.Cat Regex.Empty r) bos s = false.
Proof.
  induction s as [|c s IH]; intros r bos; simpl; [done|].
  by rewrite match_here_Alt, IH, match_here_Empty.
Qed.

Lemma match_here_Cat_Eps r bos s :
  Regex.match_here (Regex.Cat Regex.Eps r) bos s = Regex.match_here r bos s.
Proof.
  destruct s as [|c s]; simpl; [done|].
  by rewrite match_here_Alt, match_here_Cat_Empty.
Qed.

(** A literal pattern matches at a position when the subject goes on with
    it there, case apart. *)
Lemma match_here_literal q : ∀ bos s,
  Regex.match_here (literal q) bos s = prefix_ci q s.
Proof.
  induction q as [|a q IH]; intros bos s.
  - destruct s; done.
  - destruct s as [|c s]; [done|].
    change (literal (String a q)) with (Regex.Cat (Regex.Chr a) (literal q)).
    cbn [Regex.match_here Regex.nullable Regex.deriv prefix_ci andb orb].
    rewrite match_here_Alt, match_here_Empty, orb_false_r.
    destruct (Ascii.eqb (to_lower a) (to_lower c)); simpl.
    + by rewrite match_here_Cat_Eps, IH.
    + by rewrite match_here_Cat_Empty.
Qed.

Lemma search_from_literal q s : ∀ bos,
  Regex.search_from (literal q) bos s = substring_ci q s.
Proof.
  induction s as [|c s IH]; intros bos;
    cbn [Regex.search_from substring_ci].
  - by rewrite match_here_literal.
  - by rewrite match_here_literal, IH.
Qed.

Lemma match_here_Bol r bos s :
  Regex.match_here (Regex.Cat Regex.Bol r) bos s
  = bos && Regex.match_here r bos s.
Proof.
  destruct s as [|c s]; simpl.
  - by rewrite !orb_false_r.
  - rewrite match_here_Alt, match_here_Cat_Empty. destruct bos; simpl; [done|].
    by rewrite match_here_Empty.
Qed.

Lemma search_from_Bol_later r s :
  Regex.search_from (Regex.Cat Regex.Bol r) false s = false.
Proof.
  induction s as [|c s IH]; simpl.
  - done.
  - rewrite IH, match_here_Alt, match_here_Cat_Empty, match_here_Empty. done.
Qed.

Lemma search_anchored_literal q s :
  Regex.search (Regex.Cat Regex.Bol (literal q)) s = prefix_ci q s.
Proof.
  unfold Regex.search. destruct s as [|c s].
  - simpl. rewrite orb_false_r. by destruct q.
  - cbn [Regex.search_from]. rewrite search_from_Bol_later, orb_false_r.
    by rewrite match_here_Bol, match_here_literal.
Qed.

Lemma search_literal q s : Regex.search (literal q) s = substring_ci q s.
Proof. apply search_from_literal. Qed.

(** ** The literal tests *)

Lemma prefix_ci_spec q : ∀ s, prefix_ci q s = true ↔ starts_with_ci s q.
Proof.
  unfold starts_with_ci. induction q as [|a q IH]; intros s; simpl.
  - split; [intros _; by exists (lower s) | done].
  - destruct s as [|c s]; simpl.
    + split; [done | intros [post Hpost]; discriminate Hpost].
    + rewrite andb_true_iff, IH, Ascii.eqb_eq. split.
      * intros [Heq [post Hpost]]. exists post. by rewrite Heq, Hpost.
      * intros [post Hpost]. injection Hpost as Hc Hs. split; [done|].
        by exists post.
Qed.

Lemma substring_ci_spec q s : substring_ci q s = true ↔ contains_ci s q.
Proof.
  unfold contains_ci. induction s as [|c s IH]; simpl.
  - rewrite orb_false_r, prefix_ci_spec. unfold starts_with_ci. simpl. split.
    + intros [post Hpost]. by exists EmptyString, post.
    + intros (pre & post & Hpost). destruct pre; [|discriminate Hpost].
      by exists post.
  - rewrite orb_true_iff, prefix_ci_spec, IH. unfold starts_with_ci. simpl.
    split.
    + intros [[post Hpost]|(pre & post & Hpost)].
      * by exists EmptyString, post.
      * exists (String (to_lower c) pre), post. simpl. by rewrite Hpost.
    + intros (pre & post & Hpost). destruct pre as [|p pre]; simpl in Hpost.
      * left. by exists post.
      * right. injection Hpost as _ Hs. by exists pre, post.
Qed.

(** ** Documents that are words *)

Lemma bind_as_str_Some (d : doc) k s :
  d !! k ≫= Word.as_str = Some s → d !! k = Some (VStr s).
Proof.
  destruct (d !! k) as [v|]; simpl; [|done]. destruct v; simpl; congruence.
Qed.

Lemma parse_fields d w :
  Word.parse d = Some w →
  d !! "id" = Some (VStr (Word.id w))
  ∧ d !! "word" = Some (VStr (Word.word w))
  ∧ d !! "language_id" = Some (VStr (Word.language_id w)).
Proof.
  unfold Word.parse. intros Hparse.
  destruct (d !! "id") as [[]|]; simpl in Hparse; try done.
  destruct (d !! "word") as [[]|]; simpl in Hparse; try done.
  destruct (d !! "language_id") as [[]|]; simpl in Hparse; try done.
  destruct (d !! "meanings") as [[]|]; simpl in Hparse; try done.
  destruct (mapM Word.as_str_dict _); simpl in Hparse; try done.
  destruct (d !! "created_by") as [[]|]; simpl in Hparse; try done.
  destruct (d !! "last_modified_by") as [[]|]; simpl in Hparse; try done.
  destruct (d !! "created_at") as [[]|]; simpl in Hparse; try done.
  destruct (d !! "updated_at") as [[]|]; simpl in Hparse; try done.
  by injection Hparse as <-.
Qed.

Lemma parse_word d w :
  Word.parse d = Some w → d !! "word" = Some (VStr (Word.word w)).
Proof. intros Hparse. by apply parse_fields in Hparse as (_ & ? & _). Qed.

(** A filter on documents and a test on words that agree on every document
    that is a word select the same words, in the same order. *)
Lemma parse_words_find (q : doc → bool) (p : Word.t → bool) (n : nat)
    (docs : list doc) (ws : list Word.t) :
  mapM Word.parse docs = Some ws →
  (∀ d w, Word.parse d = Some w → q d = p w) →
  parse_words (to_list n (find q docs)) = Ok (take n (List.filter p ws)).
Proof.
  intros Hparse Hagree. unfold parse_words, to_list, find.
  assert (Forall2 (λ d w, Word.parse d = Some w)
            (List.filter q docs) (List.filter p ws)) as Hall.
  { apply mapM_Some in Hparse.
    induction Hparse as [|d w docs ws Hd _ IH]; simpl; [constructor|].
    rewrite (Hagree d w Hd). destruct (p w); [by constructor | done]. }
  apply (Forall2_take _ _ _ n), mapM_Some in Hall. by rewrite Hall.
Qed.

Lemma filter_true {A} (l : list A) : List.filter (λ _, true) l = l.
Proof. induction l as [|x l IH]; simpl; by rewrite ?IH. Qed.

(** What the two queries answer for a query string without
    metacharacters, over a collection of words. *)
Lemma literal_query_results (db : database) (q : string) (ws : list Word.t) :
  Regex.meta_free q = true →
  mapM Word.parse (words db) = Some ws →
  get_words db None (Some q)
  = Ok (take 1000 (List.filter (λ w, substring_ci q (Word.word w)) ws))
  ∧ search_words db q None None
    = Ok (take 100 (List.filter (λ w, prefix_ci q (Word.word w)) ws)).
Proof.
  intros Hfree Hparse. split.
  - unfold get_words. change (truthy_str None) with false. cbn iota.
    destruct (truthy_str (Some q)) eqn:Htruthy.
    + cbn [app default compile]. unfold compile_cond.
      rewrite parse_literal by done.
      apply parse_words_find; [done|].
      intros d w Hd. unfold field_has. rewrite (parse_word d w Hd).
      cbn [value_has]. by rewrite search_literal, andb_true_r.
    + assert (q = EmptyString) as ->.
      { simpl in Htruthy. apply negb_false_iff in Htruthy.
        by apply bool_decide_eq_true in Htruthy. }
      cbn [compile]. erewrite parse_words_find; [|done|done].
      f_equal. f_equal. rewrite filter_true.
      clear. induction ws as [|w ws IH]; [done|].
      cbn [List.filter]. rewrite <- IH. by destruct (Word.word w).
  - unfold search_words. change (truthy_str None) with false.
    cbn [compile andb]. unfold compile_cond.
    rewrite parse_anchored_literal by done.
    erewrite parse_words_find; [done|done|].
    intros d w Hd. unfold field_has. rewrite (parse_word d w Hd).
    cbn [value_has]. by rewrite search_anchored_literal, andb_true_r.
Qed.

Lemma mapM_replicate {A B} (f : A → option B) (n : nat) x y :
  f x = Some y → mapM f (replicate n x) = Some (replicate n y).
Proof.
  intros Hx. induction n as [|n IH]; simpl; [done|]. by rewrite Hx, IH.
Qed.

Lemma many_db_words :
  mapM Word.parse (words many_db) = Some (replicate 1001 word_cat).
Proof. apply mapM_replicate. vm_compute. reflexivity. Qed.

Lemma demo_db_words :
  mapM Word.parse (words demo_db)
  = Some [word_cat; word_Cats; word_concatenate; word_dog].
Proof. vm_compute. reflexivity. Qed.

(** C7, as the code has it.  Every stored document is a word, and the
    query has no regular-expression metacharacter in it.  [get_words] with
    the query as [search] answers with the words whose text contains the
    query, case apart, in the order of the collection and 1000 at most;
    [search_words] with the same query answers with the words whose text
    starts with it, case apart, in that order and 100 at most. *)
Theorem literal_queries
    (db : database) (q : string) (ws : list Word.t) :
  Regex.meta_free q = true →
  mapM Word.parse (words db) = Some ws →
  get_words db None (Some q)
  = Ok (take 1000 (List.filter (λ w, substring_ci q (Word.word w)) ws))
  ∧ search_words db q None None
    = Ok (take 100 (List.filter (λ w, prefix_ci q (Word.word w)) ws))
  ∧ (∀ text, substring_ci q text = true ↔ contains_ci text q)
  ∧ (∀ text, prefix_ci q text = true ↔ starts_with_ci text q).
Proof.
  intros Hfree Hparse.
  destruct (literal_query_results db q ws Hfree Hparse) as [Hget Hsearch].
  split; [done|]. split; [done|]. split.
  - intros text. apply substring_ci_spec.
  - intros text. apply prefix_ci_spec.
Qed.

Lemma literal_queries_witness :
  get_words demo_db None (Some "cat")
  = Ok [word_cat; word_Cats; word_concatenate]
  ∧ search_words demo_db "cat" None None = Ok [word_cat; word_Cats].
Proof.
  destruct (literal_queries demo_db "cat"
              [word_cat; word_Cats; word_concatenate; word_dog]
              eq_refl demo_db_words) as (Hget & Hsearch & _).
  split.
  - rewrite Hget. reflexivity.
  - rewrite Hsearch. reflexivity.
Defined.

Lemma dot_query_not_literal :
  get_words demo_db None (Some ".")
  = Ok [word_cat; word_Cats; word_concatenate; word_dog]
  ∧ ¬ contains_ci (Word.word word_cat) "."
  ∧ search_words demo_db ".o" None None = Ok [word_concatenate; word_dog]
  ∧ ¬ starts_with_ci (Word.word word_dog) ".o"
  ∧ get_words many_db None (Some "cat") = Ok (replicate 1000 word_cat)
  ∧ search_words many_db "cat" None None = Ok (replicate 100 word_cat)
  ∧ mapM Word.parse (words many_db) = Some (replicate 1001 word_cat)
  ∧ contains_ci (Word.word word_cat) "cat"
  ∧ starts_with_ci (Word.word word_cat) "cat".
Proof.
  split; [vm_compute; reflexivity|]. split.
  { intros Hin. apply substring_ci_spec in Hin. discriminate Hin. }
  split; [vm_compute; reflexivity|]. split.
  { intros Hpre. apply prefix_ci_spec in Hpre. discriminate Hpre. }
  assert (∀ (p : Word.t → bool) n, p word_cat = true →
            List.filter p (replicate n word_cat) = replicate n word_cat)
    as Hall.
  { intros p n Hp. induction n as [|n IH]; [done|].
    cbn [replicate List.filter]. by rewrite Hp, IH. }
  destruct (literal_query_results many_db "cat" _ eq_refl many_db_words)
    as [Hget Hsearch].
  rewrite Hall in Hget by done. rewrite Hall in Hsearch by done.
  rewrite take_replicate in Hget, Hsearch.
  split; [exact Hget|]. split; [exact Hsearch|].
  split; [apply many_db_words|]. split.
  - by apply substring_ci_spec.
  - by apply prefix_ci_spec.
Qed.

(** ** Translations to one language *)

Lemma truthy_filter {A} (p : A → bool) (l : list A) :
  truthy_list (List.filter p l) = existsb p l.
Proof.
  induction l as [|x l IH]; simpl; [done|]. destruct (p x); simpl; done.
Qed.

Lemma filter_results_translations l ws :
  filter_results l ws = translations_to l ws.
Proof.
  unfold translations_to. induction ws as [|w ws IH]; simpl; [done|].
  rewrite truthy_filter. destruct (existsb _ _); simpl; by rewrite IH.
Qed.

Lemma targets_spec l m : targets l m = true ↔ m !! "language_id" = Some l.
Proof. unfold targets. by rewrite bool_decide_eq_true. Qed.

Lemma translations_to_elem l ws w' :
  w' ∈ translations_to l ws
  ↔ ∃ w, w ∈ ws
         ∧ (∃ m, m ∈ Word.meanings w ∧ m !! "language_id" = Some l)
         ∧ w' = Word.set_meanings
                  (List.filter (targets l) (Word.meanings w)) w.
Proof.
  unfold translations_to. rewrite list_elem_of_fmap. split.
  - intros (w & -> & Hw). apply list_elem_of_In, List.filter_In in Hw
      as [Hin Hex].
    apply List.existsb_exists in Hex as (m & Hm & Ht).
    exists w. split; [by apply list_elem_of_In|]. split; [|done].
    exists m. split; [by apply list_elem_of_In | by apply targets_spec].
  - intros (w & Hin & (m & Hm & Ht) & ->). exists w. split; [done|].
    apply list_elem_of_In, List.filter_In. split; [by apply list_elem_of_In|].
    apply List.existsb_exists. exists m.
    split; [by apply list_elem_of_In | by apply targets_spec].
Qed.

(** C8, as the code has it.  [search_words] with a [to_language] [l] that
    is not the empty string answers with the words the same search without
    [to_language] answers with, less those with no meaning that targets
    [l], each with the meanings that target [l] and no other: every word of
    the answer has a meaning, and all its meanings target [l]. *)
Theorem search_to_language
    (db : database) (word : string) (from_language : option string)
    (l : string) (found : list Word.t) :
  l ≠ EmptyString →
  search_words db word from_language None = Ok found →
  search_words db word from_language (Some l) = Ok (translations_to l found)
  ∧ (∀ w', w' ∈ translations_to l found
       ↔ ∃ w, w ∈ found
              ∧ (∃ m, m ∈ Word.meanings w ∧ m !! "language_id" = Some l)
              ∧ w' = Word.set_meanings
                       (List.filter (targets l) (Word.meanings w)) w)
  ∧ (∀ w', w' ∈ translations_to l found →
       Word.meanings w' ≠ []
       ∧ ∀ m, m ∈ Word.meanings w' → m !! "language_id" = Some l).
Proof.
  intros Hl Hfound. split; [|split].
  - unfold search_words in *.
    destruct (compile _) as [q|]; [|done].
    destruct (parse_words _) as [result| | |]; try done.
    simpl in Hfound. injection Hfound as ->.
    replace (truthy_str (Some l)) with true
      by (simpl; by rewrite bool_decide_eq_false_2).
    simpl. rewrite filter_results_translations.
    destruct found; done.
  - apply translations_to_elem.
  - intros w' Hw'. apply translations_to_elem in Hw'
      as (w & _ & (m & Hm & Ht) & ->). simpl. split.
    + intros Hnil.
      assert (m ∈ List.filter (targets l) (Word.meanings w)) as Hin.
      { apply list_elem_of_In, List.filter_In.
        split; [by apply list_elem_of_In | by apply targets_spec]. }
      rewrite Hnil in Hin. by apply elem_of_nil in Hin.
    + intros m' Hm'. apply list_elem_of_In, List.filter_In in Hm' as [_ Hm'].
      by apply targets_spec.
Qed.

Lemma search_to_language_witness :
  search_words demo_db "c" None (Some "fr")
  = Ok [Word.set_meanings [meaning "fr" "chat"] word_cat; word_concatenate].
Proof.
  destruct (search_to_language demo_db "c" None "fr"
              [word_cat; word_Cats; word_concatenate])
    as (Hsearch & _).
  - intros H. discriminate H.
  - vm_compute. reflexivity.
  - rewrite Hsearch. vm_compute. reflexivity.
Defined.

Lemma empty_to_language_keeps_all :
  search_words demo_db "cat" None (Some EmptyString)
  = Ok [word_cat; word_Cats]
  ∧ Forall (λ m : gmap string string, m !! "language_id" ≠ Some EmptyString)
      (Word.meanings word_cat).
Proof.
  split; [vm_compute; reflexivity|].
  repeat constructor; vm_compute; intros H; discriminate H.
Qed.

(** ** Metacharacters in a query *)

(** C9.  The query string goes into the regular expression as it is.
    With [a|b] as the query, [search_words] answers with [cab], which
    does not start with the string [a|b], and so does [get_words], though
    [cab] does not contain that string; with [.*], [search_words] answers
    with every word.  For a query without metacharacters both answers are
    the literal ones, over a collection of words. *)
Theorem metacharacters_are_interpreted :
  (Regex.meta_free "a|b" = false
   ∧ search_words regex_db "a|b" None None = Ok [word_cab; word_abc]
   ∧ ¬ starts_with_ci (Word.word word_cab) "a|b"
   ∧ get_words regex_db None (Some "a|b") = Ok [word_cab; word_abc]
   ∧ ¬ contains_ci (Word.word word_cab) "a|b")
  ∧ (Regex.meta_free ".*" = false
     ∧ search_words regex_db ".*" None None = Ok [word_cab; word_abc; word_dog]
     ∧ ¬ starts_with_ci (Word.word word_dog) ".*")
  ∧ (∀ db q ws,
       Regex.meta_free q = true →
       mapM Word.parse (words db) = Some ws →
       get_words db None (Some q)
       = Ok (take 1000 (List.filter (λ w, substring_ci q (Word.word w)) ws))
       ∧ search_words db q None None
         = Ok (take 100 (List.filter (λ w, prefix_ci q (Word.word w)) ws))).
Proof.
  split; [|split].
  - split; [reflexivity|]. split; [vm_compute; reflexivity|]. split.
    { intros Hpre. apply prefix_ci_spec in Hpre. discriminate Hpre. }
    split; [vm_compute; reflexivity|].
    intros Hin. apply substring_ci_spec in Hin. discriminate Hin.
  - split; [reflexivity|]. split; [vm_compute; reflexivity|].
    intros Hpre. apply prefix_ci_spec in Hpre. discriminate Hpre.
  - apply literal_query_results.
Qed.

(** ** Cut results *)

Lemma parse_words_length docs ws :
  parse_words docs = Ok ws → length ws = length docs.
Proof.
  unfold parse_words. destruct (mapM Word.parse docs) as [ws'|] eqn:Hparse;
    [|done].
  intros [= <-]. apply mapM_Some in Hparse. symmetry.
  by eapply Forall2_length.
Qed.

Lemma filter_results_length l ws :
  (length (filter_results l ws) ≤ length ws)%nat.
Proof.
  induction ws as [|w ws IH]; simpl; [done|].
  destruct (truthy_list _); simpl; lia.
Qed.

(** C10.  No answer of [get_languages], [get_words] or
    [get_user_contributions] has more than 1000 entries, and no answer of
    [search_words] more than 100.  What is stored beyond that is left out
    and the answer is an ordinary one: the first 1000 languages, the first
    1000 (or 100) words of a collection of words when nothing is filtered,
    the first 1000 contributions of the user. *)
Theorem results_are_cut (db : database) :
  get_languages db = Ok (take 1000 (languages db))
  ∧ (∀ ls, get_languages db = Ok ls → (length ls ≤ 1000)%nat)
  ∧ (∀ language_id search ws,
       get_words db language_id search = Ok ws → (length ws ≤ 1000)%nat)
  ∧ (∀ word from_language to_language ws,
       search_words db word from_language to_language = Ok ws →
       (length ws ≤ 100)%nat)
  ∧ (∀ user_id current_user cs,
       get_user_contributions db user_id current_user = Ok cs →
       (length cs ≤ 1000)%nat)
  ∧ (∀ ws,
       mapM Word.parse (words db) = Some ws →
       get_words db None None = Ok (take 1000 ws)
       ∧ search_words db EmptyString None None = Ok (take 100 ws))
  ∧ (∀ user_id current_user,
       User.id current_user = user_id ∨ privileged current_user →
       get_user_contributions db user_id current_user
       = Ok (take 1000 (List.filter (Contribution.has_user_id user_id)
                          (contributions db)))).
Proof.
  split; [done|]. split; [|split; [|split; [|split; [|split]]]].
  - intros ls Hls.
    assert (ls = take 1000 (languages db)) as ->
      by (unfold get_languages, to_list in Hls; congruence).
    rewrite length_take. lia.
  - intros language_id search ws. unfold get_words.
    destruct (compile _) as [q|]; [|done].
    intros Hws. apply parse_words_length in Hws. rewrite Hws.
    unfold to_list. rewrite length_take. lia.
  - intros word from_language to_language ws. unfold search_words.
    destruct (compile _) as [q|]; [|done].
    destruct (parse_words _) as [result| | |] eqn:Hresult; try done.
    apply parse_words_length in Hresult.
    unfold to_list in Hresult. rewrite length_take in Hresult.
    destruct (_ && _); intros Hws.
    + assert (ws = filter_results (default EmptyString to_language) result)
        as -> by congruence.
      pose proof (filter_results_length (default EmptyString to_language)
                    result). lia.
    + assert (ws = result) as -> by congruence. lia.
  - intros user_id current_user cs. unfold get_user_contributions.
    destruct (_ && _); [done|]. intros Hcs.
    assert (cs = take 1000 (find (Contribution.has_user_id user_id)
                              (contributions db))) as ->
      by (unfold to_list in Hcs; congruence).
    rewrite length_take. lia.
  - intros ws Hparse. split.
    + unfold get_words. change (truthy_str None) with false.
      cbn [compile]. erewrite parse_words_find; [|done|done].
      by rewrite filter_true.
    + destruct (literal_query_results db EmptyString ws eq_refl Hparse)
        as [_ ->]. cbn [prefix_ci]. by rewrite filter_true.
  - intros user_id current_user Hallowed.
    by apply (role_gates_allowed db user_id current_user).
Qed.

Lemma results_are_cut_witness :
  length (words many_db) = 1001%nat
  ∧ (∃ ws, get_words many_db None None = Ok ws ∧ length ws = 1000%nat)
  ∧ (∃ ws, search_words many_db EmptyString None None = Ok ws
           ∧ length ws = 100%nat)
  ∧ (∃ cs, get_user_contributions many_db "u-ann" ann = Ok cs
           ∧ length cs = 1000%nat).
Proof.
  destruct (results_are_cut many_db) as (_ & _ & _ & _ & _ & Hwords & Hcontr).
  destruct (Hwords _ many_db_words) as [Hget Hsearch].
  split; [apply length_replicate|]. split; [|split].
  - eexists. split; [exact Hget|]. rewrite length_take, length_replicate. lia.
  - eexists. split; [exact Hsearch|].
    rewrite length_take, length_replicate. lia.
  - eexists. split; [apply Hcontr; left; reflexivity|].
    rewrite length_take. unfold many_db, contributions.
    assert (∀ n, List.filter (Contribution.has_user_id "u-ann")
                   (replicate n contribution_ann)
                 = replicate n contribution_ann) as ->.
    { induction n as [|n IH]; simpl; [done|]. by rewrite IH. }
    rewrite length_replicate. lia.
Defined.

(** * Further properties of the handlers *)

(** ** Logging in *)

(** X1.  [login_for_access_token] answers with a token exactly when a user
    is stored under the username and the password verifies against that
    user's hash; an unknown username and a wrong password get one and the
    same answer, 401 with the detail [Incorrect username or password]. *)
Theorem login_outcomes {platform : Platform}
    (db : database) (username password : string) (now : Z) :
  (is_Ok (login_for_access_token db username password now) = true
   ↔ ∃ user, get_user db username = Some user
             ∧ pwd_verify password (User.hashed_password user) = true)
  ∧ (is_Ok (login_for_access_token db username password now) = false
     ↔ login_for_access_token db username password now
       = HTTPException 401 "Incorrect username or password").
Proof.
  unfold login_for_access_token, authenticate_user, verify_password.
  destruct (get_user db username) as [user|].
  - destruct (pwd_verify password (User.hashed_password user)) eqn:Hv; simpl.
    + split; [|split; intros; discriminate]. split; [eauto|done].
    + split; [|done]. split; [done|]. intros (u & [= <-] & Hu). congruence.
  - simpl. split; [|done]. split; [done|]. by intros (u & Hu & _).
Qed.

(** The token of a login resolves to the stored user until it expires. *)
Lemma resolve_issued {platform : Platform} db U now later :
  get_current_user db
    (create_access_token {[ "sub" := VStr U ]}
       (Some (minutes ACCESS_TOKEN_EXPIRE_MINUTES)) now) later
  = if now + minutes 30 <=? later then credentials_exception
    else match get_user db U with
         | Some user => Ok user
         | None => credentials_exception
         end.
Proof.
  unfold get_current_user, create_access_token, jwt_encode, jwt_decode.
  simpl. rewrite bool_decide_eq_true_2 by done. rewrite lookup_insert_eq.
  change (now + minutes ACCESS_TOKEN_EXPIRE_MINUTES) with (now + minutes 30).
  destruct (now + minutes 30 <=? later); [done|].
  rewrite lookup_insert_ne by done. by rewrite lookup_singleton_eq.
Qed.

Lemma find_one_app_None {A} (q : A → bool) (l1 l2 : list A) :
  find_one q l1 = None → find_one q (l1 ++ l2) = find_one q l2.
Proof.
  unfold find_one. induction l1 as [|x l1 IH]; simpl; [done|].
  destruct (q x); [done|]. apply IH.
Qed.

Lemma find_one_app_Some {A} (q : A → bool) (l1 l2 : list A) x :
  find_one q l1 = Some x → find_one q (l1 ++ l2) = Some x.
Proof.
  unfold find_one. induction l1 as [|y l1 IH]; simpl; [done|].
  destruct (q y); [done|]. apply IH.
Qed.

Lemma register_user_free db user_data :
  ¬ taken db user_data →
  find_one (User.has_username (UserCreate.username user_data)) (users db) = None
  ∧ find_one (User.has_email (UserCreate.email user_data)) (users db) = None.
Proof.
  intros Hfree. split; apply find_one_None; intros u Hu;
    apply bool_decide_eq_false; intros Heq; apply Hfree; exists u; auto.
Qed.

(** X2.  Registration and login compose: when the username and the email
    are free and the password verifies against its own hash, the user who
    has just registered can log in with the same username and password,
    and until the token expires it resolves to a user of that name, with
    the role [contributor] and no contribution. *)
Theorem register_then_login {platform : Platform}
    (db : database) (user_data : UserCreate.t) (e : ambient) (now : Z) :
  ¬ taken db user_data →
  pwd_verify (UserCreate.password user_data)
    (pwd_hash (salt e) (UserCreate.password user_data)) = true →
  let db' := fst (register_user db user_data e) in
  ∃ tok,
    login_for_access_token db' (UserCreate.username user_data)
      (UserCreate.password user_data) now = Ok tok
    ∧ ∀ later, later < now + minutes 30 →
        ∃ user, get_current_user db' tok later = Ok user
                ∧ User.username user = UserCreate.username user_data
                ∧ User.email user = UserCreate.email user_data
                ∧ User.role user = CONTRIBUTOR
                ∧ User.contribution_count user = 0
                ∧ User.contributor_rank user = 0.
Proof.
  intros Hfree Hverify db'.
  destruct (register_user_free db user_data Hfree) as [Hname Hmail].
  set (new := User.Build (uuid4_a e) (UserCreate.email user_data)
                (UserCreate.username user_data)
                (get_password_hash (salt e) (UserCreate.password user_data))
                CONTRIBUTOR 0 0 (utcnow e) (utcnow e)).
  assert (get_user db' (UserCreate.username user_data) = Some new) as Hget.
  { subst db'. unfold register_user. rewrite Hname, Hmail. simpl.
    unfold get_user, insert_one. simpl. rewrite find_one_app_None by done.
    unfold find_one. simpl. unfold User.has_username. simpl.
    by rewrite bool_decide_eq_true_2. }
  eexists. split.
  - unfold login_for_access_token, authenticate_user, verify_password.
    rewrite Hget. simpl. unfold get_password_hash. rewrite Hverify. simpl.
    reflexivity.
  - intros later Hlater. exists new. rewrite resolve_issued, Hget.
    destruct (Z.leb_spec (now + minutes 30) later); [lia|done].
Qed.

Lemma register_then_login_witness :
  ∃ tok,
    login_for_access_token (platform := demo_platform)
      (fst (register_user (platform := demo_platform) demo_db
              (UserCreate.Build "eve@example.com" "eve" "pw")
              (demo_ambient "r" 0)))
      "eve" "pw" 1000 = Ok tok.
Proof.
  destruct (register_then_login (platform := demo_platform) demo_db
              (UserCreate.Build "eve@example.com" "eve" "pw")
              (demo_ambient "r" 0) 1000) as (tok & Hlogin & _).
  - intros (u & Hin & Hu). simpl in Hin.
    rewrite !elem_of_cons, elem_of_nil in Hin.
    destruct Hin as [->|[->|[->|[]]]]; destruct Hu as [Hu|Hu];
      discriminate Hu.
  - reflexivity.
  - exists tok. exact Hlogin.
Defined.

(** X3.  Registration keeps usernames and emails unique: if no two stored
    users share a username and no two share an email, the same holds
    after [register_user], whatever it answers. *)
Theorem register_keeps_unique {platform : Platform}
    (db : database) (user_data : UserCreate.t) (e : ambient) :
  NoDup (map User.username (users db)) →
  NoDup (map User.email (users db)) →
  NoDup (map User.username (users (fst (register_user db user_data e))))
  ∧ NoDup (map User.email (users (fst (register_user db user_data e)))).
Proof.
  intros Hnames Hmails. unfold register_user.
  destruct (find_one (User.has_username _) (users db)) eqn:Hname; [done|].
  destruct (find_one (User.has_email _) (users db)) eqn:Hmail; [done|].
  simpl. unfold insert_one. rewrite !map_app. simpl.
  split; apply NoDup_app; (split; [done|]);
    (split; [|apply NoDup_singleton]);
    intros x Hx Hnew; apply list_elem_of_singleton in Hnew as ->;
    apply list_elem_of_fmap in Hx as (u & Hu & Hin).
  - apply (proj1 (find_one_None _ _) Hname) in Hin.
    apply bool_decide_eq_false in Hin. congruence.
  - apply (proj1 (find_one_None _ _) Hmail) in Hin.
    apply bool_decide_eq_false in Hin. congruence.
Qed.

Lemma register_keeps_unique_witness :
  NoDup (map User.username
           (users (fst (register_user (platform := demo_platform) demo_db
                          (UserCreate.Build "eve@example.com" "eve" "pw")
                          (demo_ambient "r" 0)))))
  ∧ NoDup (map User.username
             (users (fst (register_user (platform := demo_platform) demo_db
                            (UserCreate.Build "eve@example.com" "ann" "pw")
                            (demo_ambient "r" 0))))).
Proof.
  assert (NoDup (map User.username (users demo_db))) as Hnames.
  { apply (bool_decide_unpack _). vm_compute. exact I. }
  assert (NoDup (map User.email (users demo_db))) as Hmails.
  { apply (bool_decide_unpack _). vm_compute. exact I. }
  split.
  - apply (register_keeps_unique (platform := demo_platform) demo_db
             (UserCreate.Build "eve@example.com" "eve" "pw")
             (demo_ambient "r" 0) Hnames Hmails).
  - apply (register_keeps_unique (platform := demo_platform) demo_db
             (UserCreate.Build "eve@example.com" "ann" "pw")
             (demo_ambient "r" 0) Hnames Hmails).
Defined.

(** ** Words as documents *)

Lemma as_str_dict_fmap (m : gmap string string) :
  Word.as_str_dict (VDict (VStr <$> m)) = Some m.
Proof.
  unfold Word.as_str_dict.
  assert (omap Word.as_str (VStr <$> m) = m) as ->.
  { apply map_eq. intros k. rewrite lookup_omap, lookup_fmap.
    by destruct (m !! k). }
  rewrite dom_fmap_L. by rewrite bool_decide_eq_true_2.
Qed.

Lemma as_meanings_value ms :
  Word.as_meanings (Word.meanings_value ms) = Some ms.
Proof.
  unfold Word.as_meanings, Word.meanings_value.
  induction ms as [|m ms IH]; [done|].
  cbn [map mapM]. rewrite as_str_dict_fmap. simpl. by rewrite IH.
Qed.

Lemma parse_of_fields (d : doc) i t l v ms cb lm ca ua :
  d !! "id" = Some (VStr i) →
  d !! "word" = Some (VStr t) →
  d !! "language_id" = Some (VStr l) →
  d !! "meanings" = Some v →
  Word.as_meanings v = Some ms →
  d !! "created_by" = Some (VStr cb) →
  d !! "last_modified_by" = Some (VStr lm) →
  d !! "created_at" = Some (VTime ca) →
  d !! "updated_at" = Some (VTime ua) →
  Word.parse d = Some (Word.Build i t l ms cb lm ca ua).
Proof.
  intros Hi Ht Hl Hv Hms Hcb Hlm Hca Hua. unfold Word.parse.
  rewrite Hi, Ht, Hl, Hv, Hcb, Hlm, Hca, Hua. simpl. by rewrite Hms.
Qed.

Lemma parse_all_fields d w :
  Word.parse d = Some w →
  d !! "id" = Some (VStr (Word.id w))
  ∧ d !! "word" = Some (VStr (Word.word w))
  ∧ d !! "language_id" = Some (VStr (Word.language_id w))
  ∧ (∃ v, d !! "meanings" = Some v
          ∧ Word.as_meanings v = Some (Word.meanings w))
  ∧ d !! "created_by" = Some (VStr (Word.created_by w))
  ∧ d !! "last_modified_by" = Some (VStr (Word.last_modified_by w))
  ∧ d !! "created_at" = Some (VTime (Word.created_at w))
  ∧ d !! "updated_at" = Some (VTime (Word.updated_at w)).
Proof.
  unfold Word.parse. intros Hparse.
  destruct (d !! "id") as [[]|]; simpl in Hparse; try done.
  destruct (d !! "word") as [[]|]; simpl in Hparse; try done.
  destruct (d !! "language_id") as [[]|]; simpl in Hparse; try done.
  destruct (d !! "meanings") as [v|]; simpl in Hparse; try done.
  destruct (Word.as_meanings v) eqn:Hv; simpl in Hparse; try done.
  destruct (d !! "created_by") as [[]|]; simpl in Hparse; try done.
  destruct (d !! "last_modified_by") as [[]|]; simpl in Hparse; try done.
  destruct (d !! "created_at") as [[]|]; simpl in Hparse; try done.
  destruct (d !! "updated_at") as [[]|]; simpl in Hparse; try done.
  injection Hparse as <-. simpl. repeat split; try done. eauto.
Qed.

(** The model reads back what it wrote, with or without the [_id] of the
    database. *)
Lemma parse_dict w : Word.parse (Word.dict w) = Some w.
Proof.
  destruct w as [i t l ms cb lm ca ua].
  apply parse_of_fields with (v := Word.meanings_value ms);
    unfold Word.dict;
    cbn [Word.id Word.word Word.language_id Word.meanings Word.created_by
         Word.last_modified_by Word.created_at Word.updated_at];
    rewrite ?as_meanings_value, ?lookup_insert_ne by done;
    rewrite ?lookup_insert_eq; done.
Qed.

Lemma parse_stored oid w :
  Word.parse (<["_id" := VObjectId oid]> (Word.dict w)) = Some w.
Proof.
  destruct (parse_all_fields _ _ (parse_dict w))
    as (Hi & Ht & Hl & (v & Hv & Hms) & Hcb & Hlm & Hca & Hua).
  destruct w as [i t l ms cb lm ca ua]. simpl in *.
  apply parse_of_fields with (v := v);
    rewrite ?lookup_insert_ne by done; done.
Qed.




(** ** Updates *)

(** The database and the answer of [update_word] on a stored word, from
    the document [word'] it leaves in the place of [word]. *)
Lemma update_word_found db word_id word_data current_user e word :
  find_one (id_is word_id) (words db) = Some word →
  ∃ word' : doc,
    (∀ k, k ∈ ["word"; "meanings"] →
       word' !! k
       = match word_data !! k with Some v => Some v | None => word !! k end)
    ∧ word' !! "last_modified_by" = Some (VStr (User.id current_user))
    ∧ word' !! "updated_at" = Some (VTime (utcnow e))
    ∧ (∀ k, k ≠ "word" → k ≠ "meanings" → k ≠ "last_modified_by" →
            k ≠ "updated_at" → word' !! k = word !! k)
    ∧ find_one (id_is word_id)
        (update_one (id_is word_id) (λ _, word') (words db)) = Some word'
    ∧ update_word db word_id word_data current_user e
      = (Database (advanced current_user (users db)) (languages db)
           (update_one (id_is word_id) (λ _, word') (words db))
           (contributions db
            ++ [edit_of word_id word_data current_user e]),
         match Word.parse word' with
         | Some w => Ok w
         | None => ValidationError
         end).
Proof.
  intros Hword.
  set (base := (<["last_modified_by" := VStr (User.id current_user)]>
                  (<["updated_at" := VTime (utcnow e)]> ∅) : doc)).
  set (update_data :=
    map_fold
      (λ field value (update_data : doc),
         if bool_decide (field ∈ ["word"; "meanings"])
         then <[field := value]> update_data
         else update_data)
      base word_data).
  assert (∀ k, update_data !! k
    = if bool_decide (k ∈ ["word"; "meanings"])
      then match word_data !! k with Some v => Some v | None => base !! k end
      else base !! k) as Hupd by (intros k; apply update_data_lookup).
  assert (∀ k, k ≠ "word" → k ≠ "meanings" →
               bool_decide (k ∈ ["word"; "meanings"]) = false) as Hother.
  { intros k Hw Hm. apply bool_decide_eq_false.
    rewrite !elem_of_cons, elem_of_nil. tauto. }
  assert (update_data !! "id" = None) as Hid
    by (by rewrite Hupd, Hother).
  assert (find_one (id_is word_id)
            (update_one (id_is word_id) (set_fields update_data) (words db))
          = Some (set_fields update_data word)) as Hfound.
  { rewrite find_one_update_one, Hword; [done|].
    intros x. by apply id_is_set_fields. }
  exists (set_fields update_data word).
  rewrite <- (update_one_const _ (set_fields update_data) _ _ Hword).
  split; [|split; [|split; [|split; [|split]]]].
  - intros k Hk. unfold set_fields. rewrite lookup_union, Hupd.
    rewrite bool_decide_eq_true_2 by done.
    assert (base !! k = None) as ->.
    { rewrite !elem_of_cons, elem_of_nil in Hk.
      destruct Hk as [->|[->|[]]]; done. }
    destruct (word_data !! k), (word !! k); done.
  - unfold set_fields. rewrite lookup_union, Hupd, Hother by done.
    subst base. rewrite lookup_insert_eq. by destruct (word !! _).
  - unfold set_fields. rewrite lookup_union, Hupd, Hother by done.
    subst base. rewrite lookup_insert_ne, lookup_insert_eq by done.
    by destruct (word !! _).
  - intros k Hk1 Hk2 Hk3 Hk4. unfold set_fields.
    rewrite lookup_union, Hupd, Hother by done.
    subst base. rewrite !lookup_insert_ne, lookup_empty by done.
    by destruct (word !! k).
  - done.
  - unfold update_word. rewrite Hword. fold base. fold update_data.
    unfold advanced, edit_of.
    destruct (User.contribution_count current_user mod 10 =? 0);
      cbn [words set_words set_contributions set_users users languages
           contributions insert_one];
      rewrite Hfound; by destruct (Word.parse _).
Qed.



(** X6.  An update can be read back.  When the stored document is the
    word [w] and the payload gives a string for [word] and a list of
    meanings for [meanings], or leaves them out, [update_word] answers
    with [w] changed in what was given, in [last_modified_by] and in
    [updated_at] and in nothing else, and [get_word] answers with the same
    word afterwards. *)
Theorem update_then_get
    (db : database) (word_id : string) (word_data : gmap string value)
    (current_user : User.t) (e : ambient) (word : doc) (w : Word.t)
    (t : option string) (ms : option (list (gmap string string))) :
  find_one (id_is word_id) (words db) = Some word →
  Word.parse word = Some w →
  word_data !! "word" = VStr <$> t →
  word_data !! "meanings" = Word.meanings_value <$> ms →
  let r := update_word db word_id word_data current_user e in
  snd r = Ok (patched w t ms (User.id current_user) (utcnow e))
  ∧ get_word (fst r) word_id = snd r.
Proof.
  intros Hword Hw Ht Hms r.
  destruct (update_word_found db word_id word_data current_user e word Hword)
    as (word' & Hset & Hlm & Hua & Hkeep & Hfound & Hr).
  destruct (parse_all_fields _ _ Hw)
    as (Hi & Hwt & Hl & (v & Hv & Hvms) & Hcb & _ & Hca & _).
  assert (Word.parse word'
          = Some (patched w t ms (User.id current_user) (utcnow e)))
    as Hparse.
  { unfold patched.
    apply parse_of_fields
      with (v := default v (Word.meanings_value <$> ms)).
    - by rewrite Hkeep.
    - rewrite Hset, Ht by (rewrite !elem_of_cons; auto).
      by destruct t.
    - by rewrite Hkeep.
    - rewrite Hset, Hms by (rewrite !elem_of_cons; auto).
      by destruct ms.
    - destruct ms; simpl; [apply as_meanings_value | done].
    - by rewrite Hkeep.
    - done.
    - by rewrite Hkeep.
    - done. }
  subst r. rewrite Hr, Hparse. cbn [fst snd]. split; [done|].
  unfold get_word. cbn [words]. by rewrite Hfound, Hparse.
Qed.

Lemma update_then_get_witness :
  get_word
    (fst (update_word demo_db "w-dog" {[ "word" := VStr "hound" ]} bob
            (demo_ambient "u" 7))) "w-dog"
  = Ok (Word.Build "w-dog" "hound" "en" [] "u-bob" "u-bob" 100 207).
Proof.
  destruct (update_then_get demo_db "w-dog" {[ "word" := VStr "hound" ]} bob
              (demo_ambient "u" 7) (Word.dict word_dog) word_dog
              (Some "hound") None) as [Hresp Hget].
  - vm_compute. reflexivity.
  - apply parse_dict.
  - reflexivity.
  - reflexivity.
  - rewrite Hget, Hresp. reflexivity.
Defined.

(** ** What a request does to the database *)

Lemma create_word_state db word_data current_user e :
  create_word db word_data current_user e
  = (Database (advanced current_user (users db)) (languages db)
       (words db ++ [<["_id" := VObjectId (object_id e)]>
                       (Word.dict (new_word_of word_data current_user e))])
       (contributions db ++ [add_of word_data current_user e]),
     Ok (new_word_of word_data current_user e)).
Proof.
  unfold create_word, advanced, add_of, new_word_of.
  by destruct (User.contribution_count current_user mod 10 =? 0).
Qed.

Lemma find_one_update_one_const {A} (q1 q2 : A → bool) (l : list A) x x' d :
  q1 x' = q1 x →
  find_one q2 l = Some x →
  find_one q1 l = Some d →
  ∃ d', find_one q1 (update_one q2 (λ _, x') l) = Some d'
        ∧ (d' = d ∨ (d = x ∧ d' = x')).
Proof.
  intros Hq1. unfold find_one.
  induction l as [|y l IH]; simpl; [done|].
  destruct (q2 y) eqn:H2; simpl.
  - intros [= ->]. rewrite Hq1. destruct (q1 x).
    + intros [= <-]. eauto.
    + intros Hd. eauto.
  - intros Hx. destruct (q1 y); eauto.
Qed.

(** A request leaves the database as it was, or advances the counters of
    the acting user, records one contribution of theirs and keeps every
    stored word, with what [update_word] does not write. *)
Lemma request_cases db name a e :
  fst (request db name a e) = db
  ∨ ∃ cu ws c,
      fst (request db name a e)
      = Database (advanced cu (users db)) (languages db) ws
          (contributions db ++ [c])
      ∧ get_user db name = Some cu
      ∧ Contribution.user_id c = User.id cu
      ∧ ∀ i d, find_one (id_is i) (words db) = Some d →
          ∃ d', find_one (id_is i) ws = Some d'
                ∧ ∀ k, k ∉ written_keys → d' !! k = d !! k.
Proof.
  unfold request. destruct (get_user db name) as [cu|] eqn:Hcu; [|by left].
  destruct a as [word_data|word_id word_data].
  - right. rewrite create_word_state. eexists cu, _, _.
    split; [reflexivity|]. split; [done|]. split; [done|].
    intros i d Hd. exists d. split; [|done]. by apply find_one_app_Some.
  - destruct (find_one (id_is word_id) (words db)) as [word|] eqn:Hword.
    + right.
      destruct (update_word_found db word_id word_data cu e word Hword)
        as (word' & _ & _ & _ & Hkeep & _ & ->).
      eexists cu, _, _. split; [reflexivity|]. split; [done|].
      split; [done|]. intros i d Hd.
      assert (∀ k, k ∉ written_keys → word' !! k = word !! k) as Hkeep'.
      { intros k Hk. unfold written_keys in Hk.
        rewrite !elem_of_cons, elem_of_nil in Hk.
        apply Hkeep; intros ->; apply Hk; auto 10. }
      destruct (find_one_update_one_const (id_is i) (id_is word_id)
                  (words db) word word' d) as (d' & Hd' & Hcase);
        [|done|done|].
      { unfold id_is, field_has. rewrite Hkeep'; [done|].
        unfold written_keys. rewrite !elem_of_cons, elem_of_nil.
        intros [H|[H|[H|[H|[]]]]]; discriminate H. }
      exists d'. split; [done|].
      destruct Hcase as [->|[-> ->]]; [done | exact Hkeep'].
    + left. unfold update_word. by rewrite Hword.
Qed.

Lemma after_0 db name reqs : after db name reqs 0 = db.
Proof. done. Qed.

Lemma after_nil db name k : after db name [] k = db.
Proof. by destruct k. Qed.

Lemma after_S db name a e reqs k :
  after db name ((a, e) :: reqs) (S k)
  = after (fst (request db name a e)) name reqs k.
Proof.
  unfold after. cbn [take run map]. rewrite last_cons.
  by destruct (last _).
Qed.

(** What holds of the first database and is kept by every request holds
    after any number of requests. *)
Lemma after_ind (P : database → Prop) name :
  (∀ db a e, P db → P (fst (request db name a e))) →
  ∀ reqs db k, P db → P (after db name reqs k).
Proof.
  intros Hstep. induction reqs as [|[a e] reqs IH]; intros db k Hdb.
  - by rewrite after_nil.
  - destruct k as [|k]; [done|]. rewrite after_S. by apply IH, Hstep.
Qed.

(** ** The ledger agrees with the counters *)

Lemma map_none_selected {A} (q : A → bool) (f : A → A) (l : list A) :
  (∀ x, x ∈ l → q x = false) →
  map (λ x, if q x then f x else x) l = l.
Proof.
  induction l as [|x l IH]; intros Hall; simpl; [done|].
  rewrite (Hall x) by constructor. f_equal. apply IH.
  intros y Hy. apply Hall. by constructor.
Qed.

Lemma update_one_map (i : string) (f : User.t → User.t) (us : list User.t) :
  NoDup (map User.id us) →
  update_one (User.has_id i) f us
  = map (λ u, if User.has_id i u then f u else u) us.
Proof.
  induction us as [|u us IH]; simpl; [done|].
  intros [Hu Hus]%NoDup_cons. destruct (User.has_id i u) eqn:Hi.
  - f_equal. apply bool_decide_eq_true in Hi. symmetry.
    apply map_none_selected. intros v Hv. apply bool_decide_eq_false.
    intros Hvi. apply Hu. apply list_elem_of_fmap. exists v.
    split; [congruence | done].
  - f_equal. by apply IH.
Qed.

Lemma update_one_ids (q : User.t → bool) (f : User.t → User.t) us :
  (∀ u, User.id (f u) = User.id u) →
  map User.id (update_one q f us) = map User.id us.
Proof.
  intros Hf. induction us as [|u us IH]; simpl; [done|].
  destruct (q u); simpl; by rewrite ?Hf, ?IH.
Qed.

Lemma advanced_ids cu us : map User.id (advanced cu us) = map User.id us.
Proof.
  unfold advanced. destruct (_ =? _); by rewrite !update_one_ids.
Qed.

Lemma advanced_elem cu us u' :
  NoDup (map User.id us) →
  u' ∈ advanced cu us →
  ∃ u, u ∈ us ∧ User.id u' = User.id u
       ∧ User.contribution_count u'
         = User.contribution_count u
           + (if User.has_id (User.id cu) u then 1 else 0).
Proof.
  intros Hnodup. unfold advanced.
  assert (NoDup (map User.id
            (update_one (User.has_id (User.id cu))
               User.inc_contribution_count us))) as Hnodup'
    by (by rewrite update_one_ids).
  destruct (_ =? _).
  - rewrite (update_one_map _ _ _ Hnodup'), (update_one_map _ _ _ Hnodup).
    rewrite map_map. intros (u & -> & Hu)%list_elem_of_fmap.
    exists u. split; [done|].
    destruct (User.has_id (User.id cu) u) eqn:Hid.
    + assert (User.has_id (User.id cu) (User.inc_contribution_count u) = true)
        as -> by done.
      simpl. split; [done|lia].
    + rewrite Hid. split; [done|lia].
  - rewrite (update_one_map _ _ _ Hnodup).
    intros (u & -> & Hu)%list_elem_of_fmap. exists u. split; [done|].
    destruct (User.has_id (User.id cu) u); simpl; split; try done; lia.
Qed.

Lemma request_keeps_ledger db name a e :
  NoDup (map User.id (users db)) ∧ ledger_consistent db →
  NoDup (map User.id (users (fst (request db name a e))))
  ∧ ledger_consistent (fst (request db name a e)).
Proof.
  intros [Hnodup Hledger].
  destruct (request_cases db name a e) as [->|(cu & ws & c & -> & _ & Hc & _)];
    [done|].
  split; [simpl; by rewrite advanced_ids|].
  intros u' Hu'. simpl in Hu'. cbn [contributions].
  destruct (advanced_elem cu (users db) u' Hnodup Hu')
    as (u & Hu & Hid & Hcount).
  rewrite Hcount, (Hledger u Hu), Hid. unfold find.
  rewrite List.filter_app, length_app. simpl.
  assert (Contribution.has_user_id (User.id u) c
          = User.has_id (User.id cu) u) as ->.
  { unfold Contribution.has_user_id, User.has_id. rewrite Hc.
    destruct (decide (User.id u = User.id cu)) as [Heq|Hne].
    - by rewrite !bool_decide_eq_true_2.
    - rewrite !bool_decide_eq_false_2; congruence. }
  destruct (User.has_id (User.id cu) u); simpl; lia.
Qed.

(** X7.  The ledger and the counters stay in step.  When no two stored
    users share an id and every user's [contribution_count] is the number
    of ledger entries under their id, the same holds after any number of
    requests to [create_word] and [update_word], whatever they answer. *)
Theorem requests_keep_ledger
    (db : database) (username : string) (reqs : list (action * ambient))
    (k : nat) :
  NoDup (map User.id (users db)) →
  ledger_consistent db →
  NoDup (map User.id (users (after db username reqs k)))
  ∧ ledger_consistent (after db username reqs k).
Proof.
  intros Hnodup Hledger.
  apply (after_ind (λ db, NoDup (map User.id (users db))
                          ∧ ledger_consistent db)); [|done].
  intros db0 a e. apply request_keeps_ledger.
Qed.

Lemma fresh_db_consistent :
  NoDup (map User.id (users fresh_db)) ∧ ledger_consistent fresh_db.
Proof.
  split.
  - apply (bool_decide_unpack _). vm_compute. exact I.
  - intros u Hu. simpl in Hu. rewrite !elem_of_cons, elem_of_nil in Hu.
    destruct Hu as [->|[->|[]]]; reflexivity.
Qed.

Lemma requests_keep_ledger_witness :
  ledger_consistent (after fresh_db "ann" ten_creates 10).
Proof.
  apply (requests_keep_ledger fresh_db "ann" ten_creates 10);
    apply fresh_db_consistent.
Defined.

(** X8.  With the ledger and the counters in step,
    [get_user_contributions] answers a stored user who asks for their own
    contributions with entries of that user only, as many as their
    [contribution_count] says, up to 1000. *)
Theorem own_contributions_counted (db : database) (u : User.t) :
  ledger_consistent db →
  u ∈ users db →
  ∃ cs,
    get_user_contributions db (User.id u) u = Ok cs
    ∧ Forall (λ c, Contribution.user_id c = User.id u) cs
    ∧ Z.of_nat (length cs) = Z.min 1000 (User.contribution_count u).
Proof.
  intros Hledger Hu. eexists. split; [|split].
  - apply role_gates_allowed. by left.
  - apply Forall_take, Forall_forall. intros c Hc.
    apply list_elem_of_In, List.filter_In in Hc as [_ Hc].
    by apply bool_decide_eq_true in Hc.
  - rewrite length_take, (Hledger u Hu). unfold find. lia.
Qed.

Lemma own_contributions_counted_witness :
  ∃ cs,
    get_user_contributions (after fresh_db "ann" ten_creates 3) "u-ann"
      (advanced_user (advanced_user (advanced_user ann))) = Ok cs
    ∧ Z.of_nat (length cs) = 3.
Proof.
  destruct (own_contributions_counted (after fresh_db "ann" ten_creates 3)
              (advanced_user (advanced_user (advanced_user ann))))
    as (cs & Hcs & _ & Hlen).
  - apply (after_ind (λ db, NoDup (map User.id (users db))
                            ∧ ledger_consistent db) "ann").
    + intros db0 a e. apply request_keeps_ledger.
    + apply fresh_db_consistent.
  - vm_compute. apply list_elem_of_here.
  - exists cs. split; [exact Hcs|]. rewrite Hlen. reflexivity.
Defined.

(** ** The rank after a number of contributions *)

Lemma bumps_closed n : ∀ c,
  bumps c n = (c + Z.of_nat n + 9) / 10 - (c + 9) / 10.
Proof.
  induction n as [|n IH]; intros c.
  - cbn [bumps]. change (Z.of_nat 0) with 0. rewrite Z.add_0_r. lia.
  - cbn [bumps]. rewrite IH, Nat2Z.inj_succ.
    replace (c + 1 + Z.of_nat n + 9) with (c + Z.succ (Z.of_nat n) + 9) by lia.
    destruct (Z.eqb_spec (c mod 10) 0) as [H0|H0];
      Z.div_mod_to_equations; lia.
Qed.

(** X9.  After [n] successful requests by a user who had the count [c] and
    the rank [r], the count is [c + n] and the rank is [r] plus the number
    of multiples of 10 from [c] to [c + n - 1]: from 0 and 0, the rank
    after [n] contributions is [n / 10] rounded up. *)
Theorem rank_after_requests
    (db : database) (username : string) (u : User.t)
    (reqs : list (action * ambient)) :
  get_user db username = Some u →
  find_one (User.has_id (User.id u)) (users db) = Some u →
  Forall (λ r, is_Ok (snd r) = true) (run db username reqs) →
  count_of (after db username reqs (length reqs)) username
  = Some (User.contribution_count u + Z.of_nat (length reqs))
  ∧ rank_of (after db username reqs (length reqs)) username
    = Some (User.contributor_rank u
            + ((User.contribution_count u + Z.of_nat (length reqs) + 9) / 10
               - (User.contribution_count u + 9) / 10)).
Proof.
  intros Hname Hid Hall.
  destruct (run_counters _ _ _ _ Hname Hid Hall) as (u' & Hu' & Hc & Hr).
  unfold count_of, rank_of, after. rewrite firstn_all, Hu'. simpl.
  by rewrite Hc, Hr, bumps_closed.
Qed.

Lemma rank_after_requests_witness :
  count_of (after demo_db "ann" ten_creates 10) "ann" = Some 10
  ∧ rank_of (after demo_db "ann" ten_creates 10) "ann" = Some 1.
Proof.
  apply (rank_after_requests demo_db "ann" ann ten_creates eq_refl eq_refl).
  apply all_ok. vm_compute. reflexivity.
Defined.

(** ** What no request changes *)

Lemma grown_refl u : grown u u.
Proof. unfold grown. repeat split; try done; lia. Qed.

Lemma grown_trans u1 u2 u3 : grown u1 u2 → grown u2 u3 → grown u1 u3.
Proof.
  unfold grown. intros (?&?&?&?&?&?&?&?&?) (?&?&?&?&?&?&?&?&?).
  repeat split; try congruence; lia.
Qed.

Lemma Forall2_update_one {A} (R : A → A → Prop) (q : A → bool) (f : A → A) l :
  (∀ x, R x x) → (∀ x, R x (f x)) → Forall2 R l (update_one q f l).
Proof.
  intros Hrefl Hf. induction l as [|x l IH]; simpl; [constructor|].
  destruct (q x); constructor; auto. clear IH.
  induction l; constructor; auto.
Qed.

Lemma Forall2_grown_trans l1 : ∀ l2 l3,
  Forall2 grown l1 l2 → Forall2 grown l2 l3 → Forall2 grown l1 l3.
Proof.
  induction l1 as [|u1 l1 IH]; intros l2 l3 H12 H23.
  - inversion H12; subst. inversion H23; subst. constructor.
  - inversion H12; subst. inversion H23; subst. constructor.
    + by eapply grown_trans.
    + by eapply IH.
Qed.

Lemma advanced_grown cu us : Forall2 grown us (advanced cu us).
Proof.
  assert (∀ u, grown u (User.inc_contribution_count u)) as Hcount.
  { intros u. unfold grown. simpl. repeat split; try done; lia. }
  assert (∀ u, grown u (User.inc_contributor_rank u)) as Hrank.
  { intros u. unfold grown. simpl. repeat split; try done; lia. }
  unfold advanced. destruct (_ =? _).
  - eapply Forall2_grown_trans;
      apply Forall2_update_one; auto using grown_refl.
  - apply Forall2_update_one; auto using grown_refl.
Qed.

(** X10.  Requests to [create_word] and [update_word] add and remove no
    user and change no user's id, email, username, password hash, role,
    [created_at] or [updated_at]; the two counters never go down. *)
Theorem accounts_only_grow
    (db : database) (username : string) (reqs : list (action * ambient))
    (k : nat) :
  Forall2 grown (users db) (users (after db username reqs k)).
Proof.
  apply (after_ind (λ db', Forall2 grown (users db) (users db'))).
  - intros db' a e Hdb'.
    destruct (request_cases db' username a e)
      as [->|(cu & ws & c & -> & _)]; [done|].
    simpl. eapply Forall2_grown_trans; [exact Hdb'|apply advanced_grown].
  - induction (users db); constructor; auto using grown_refl.
Qed.

(** X11.  Requests to [create_word] and [update_word] delete no word and
    write nothing but [word], [meanings], [last_modified_by] and
    [updated_at] into a stored one: the word found under an id is, after
    any number of requests, still found under it, with the same value
    under every other key ([id], [language_id], [created_by] and
    [created_at] among them). *)
Theorem words_are_kept
    (db : database) (username : string) (reqs : list (action * ambient))
    (k : nat) (word_id : string) (d : doc) :
  find_one (id_is word_id) (words db) = Some d →
  ∃ d',
    find_one (id_is word_id) (words (after db username reqs k)) = Some d'
    ∧ ∀ key, key ∉ written_keys → d' !! key = d !! key.
Proof.
  intros Hd.
  apply (after_ind (λ db', ∃ d',
           find_one (id_is word_id) (words db') = Some d'
           ∧ ∀ key, key ∉ written_keys → d' !! key = d !! key)).
  - intros db' a e (d1 & Hd1 & Hkeep1).
    destruct (request_cases db' username a e)
      as [->|(cu & ws & c & -> & _ & _ & Hws)]; [eauto|].
    destruct (Hws word_id d1 Hd1) as (d2 & Hd2 & Hkeep2).
    exists d2. split; [done|]. intros key Hkey.
    by rewrite Hkeep2, Hkeep1.
  - eauto.
Qed.

Lemma words_are_kept_witness :
  ∃ d',
    find_one (id_is "w-dog") (words (after demo_db "bob" dog_edits 3))
    = Some d'
    ∧ d' !! "id" = Some (VStr "w-dog")
    ∧ d' !! "created_by" = Some (VStr "u-bob")
    ∧ d' !! "language_id" = Some (VStr "en").
Proof.
  destruct (words_are_kept demo_db "bob" dog_edits 3 "w-dog"
              (Word.dict word_dog)) as (d' & Hd' & Hkeep).
  - vm_compute. reflexivity.
  - exists d'. split; [exact Hd'|].
    assert (∀ key, bool_decide (key ∈ written_keys) = false →
                   d' !! key = Word.dict word_dog !! key) as Hkeep'.
    { intros key Hkey. apply Hkeep.
      by apply (bool_decide_eq_false (key ∈ written_keys)). }
    rewrite !Hkeep' by reflexivity. repeat split; reflexivity.
Defined.

(** ** The language filters *)

Lemma parse_words_Forall2 docs ws :
  parse_words docs = Ok ws →
  Forall2 (λ d w, Word.parse d = Some w) docs ws.
Proof.
  unfold parse_words. destruct (mapM Word.parse docs) as [ws'|] eqn:Hparse;
    [|done].
  intros Hws. assert (ws = ws') as -> by congruence. by apply mapM_Some.
Qed.

(** What holds of every selected document that is a word holds of every
    word of the answer. *)
Lemma parse_words_selected (q : doc → bool) (n : nat) docs ws
    (P : Word.t → Prop) :
  parse_words (to_list n (find q docs)) = Ok ws →
  (∀ d w, Word.parse d = Some w → q d = true → P w) →
  Forall P ws.
Proof.
  intros Hws HP. apply parse_words_Forall2 in Hws.
  assert (Forall (λ d, q d = true) (to_list n (find q docs))) as Hq.
  { apply Forall_take, Forall_forall. intros d Hd.
    by apply list_elem_of_In, List.filter_In in Hd as [_ Hd]. }
  induction Hws as [|d w docs' ws' Hd _ IH]; [constructor|].
  apply Forall_cons in Hq as [Hqd Hq]. constructor; eauto.
Qed.

Lemma language_selected l d w :
  Word.parse d = Some w →
  field_has "language_id" (value_has (String.eqb l)) d = true →
  Word.language_id w = l.
Proof.
  intros Hparse. apply parse_all_fields in Hparse as (_ & _ & Hl & _).
  unfold field_has. rewrite Hl. simpl. intros Heq.
  symmetry. by apply String.eqb_eq.
Qed.

Lemma filter_results_Forall (P : Word.t → Prop) l ws :
  (∀ w ms, P w → P (Word.set_meanings ms w)) →
  Forall P ws → Forall P (filter_results l ws).
Proof.
  intros Hset. induction 1 as [|w ws Hw _ IH]; simpl; [constructor|].
  destruct (truthy_list _); [constructor|]; auto.
Qed.

Lemma truthy_str_Some l : l ≠ EmptyString → truthy_str (Some l) = true.
Proof. intros Hl. simpl. by rewrite bool_decide_eq_false_2. Qed.

(** X12.  With a [language_id] that is not empty, every word [get_words]
    answers with is of that language, whatever the search string; with a
    [from_language] that is not empty, so is every word [search_words]
    answers with, whatever the query and the [to_language]. *)
Theorem language_filters (db : database) (l : string) :
  l ≠ EmptyString →
  (∀ search ws,
     get_words db (Some l) search = Ok ws →
     Forall (λ w, Word.language_id w = l) ws)
  ∧ (∀ word to_language ws,
       search_words db word (Some l) to_language = Ok ws →
       Forall (λ w, Word.language_id w = l) ws).
Proof.
  intros Hl. split.
  - intros search ws. unfold get_words.
    rewrite (truthy_str_Some l Hl).
    destruct (truthy_str search); cbn [app default compile];
      unfold compile_cond; try destruct (Regex.parse _); try done;
      intros Hws; apply (parse_words_selected _ _ _ _ _ Hws);
      intros d w Hd [Hq _]%andb_true_iff; by eapply language_selected.
  - intros word to_language ws. unfold search_words.
    rewrite (truthy_str_Some l Hl). cbn [app default compile].
    unfold compile_cond. destruct (Regex.parse _); [|done].
    destruct (parse_words _) as [result| | |] eqn:Hresult; try done.
    assert (Forall (λ w, Word.language_id w = l) result) as Hall.
    { apply (parse_words_selected _ _ _ _ _ Hresult).
      intros d w Hd [_ [Hq _]%andb_true_iff]%andb_true_iff.
      by eapply language_selected. }
    destruct (_ && _); intros Hws.
    + assert (ws = filter_results (default EmptyString to_language) result)
        as -> by congruence.
      by apply filter_results_Forall.
    + by assert (ws = result) as -> by congruence.
Qed.

Lemma language_filters_witness :
  Forall (λ w, Word.language_id w = "en")
    [word_cat; word_Cats; word_concatenate].
Proof.
  apply (proj1 (language_filters demo_db "en" ltac:(discriminate))
           (Some "cat")).
  vm_compute. reflexivity.
Defined.

(** ** New records and the cut *)

(** X13.  Whether a language a moderator or admin creates is listed
    depends on how many are stored: with fewer than 1000, [get_languages]
    answers afterwards with the stored languages and the new one last;
    with 1000 or more, it answers as it did before, without the new
    one. *)
Theorem created_language_listed
    (db : database) (language : Language.t) (current_user : User.t) :
  privileged current_user →
  let db' := fst (create_language db language current_user) in
  ((length (languages db) < 1000)%nat →
     get_languages db' = Ok (languages db ++ [language]))
  ∧ ((1000 ≤ length (languages db))%nat →
     get_languages db' = get_languages db).
Proof.
  intros Hpriv db'.
  assert (languages db' = languages db ++ [language]) as Hlangs.
  { subst db'. unfold create_language, is_moderator.
    apply privileged_decide in Hpriv. by rewrite Hpriv. }
  unfold get_languages, to_list. rewrite Hlangs. split; intros Hlen.
  - rewrite take_ge; [done|]. rewrite length_app. simpl. lia.
  - by rewrite take_app_le.
Qed.

Lemma created_language_listed_witness :
  get_languages (fst (create_language demo_db lang_en mod_user))
  = Ok [lang_en]
  ∧ get_languages (fst (create_language many_db lang_en mod_user))
    = get_languages many_db.
Proof.
  split.
  - apply (created_language_listed demo_db lang_en mod_user).
    + left. reflexivity.
    + simpl. lia.
  - apply (created_language_listed many_db lang_en mod_user).
    + left. reflexivity.
    + unfold many_db, languages. rewrite length_replicate. lia.
Defined.

(** ** The case of a query *)

Lemma prefix_ci_lower q1 q2 s :
  lower q1 = lower q2 → prefix_ci q1 s = prefix_ci q2 s.
Proof.
  intros Hq. apply eq_true_iff_eq. rewrite !prefix_ci_spec.
  unfold starts_with_ci. by rewrite Hq.
Qed.

Lemma substring_ci_lower q1 q2 s :
  lower q1 = lower q2 → substring_ci q1 s = substring_ci q2 s.
Proof.
  intros Hq. apply eq_true_iff_eq. rewrite !substring_ci_spec.
  unfold contains_ci. by rewrite Hq.
Qed.

Lemma value_has_ext (p1 p2 : string → bool) v :
  (∀ s, p1 s = p2 s) → value_has p1 v = value_has p2 v.
Proof.
  intros Hp. destruct v; simpl; try done.
  induction l as [|x l IH]; simpl; [done|].
  rewrite IH. by destruct x; simpl; rewrite ?Hp.
Qed.

Lemma find_ext {A} (q1 q2 : A → bool) (l : list A) :
  (∀ x, q1 x = q2 x) → find q1 l = find q2 l.
Proof. intros Hq. by apply List.filter_ext. Qed.

Lemma truthy_str_lower q1 q2 :
  lower q1 = lower q2 → truthy_str (Some q1) = truthy_str (Some q2).
Proof. destruct q1, q2; simpl; try done; discriminate. Qed.

(** X14.  The case of the letters of a query counts for nothing: two
    queries without metacharacters that differ in case only get the same
    answer from [get_words] and the same from [search_words], whatever the
    other arguments. *)
Theorem query_case_is_ignored (db : database) (q1 q2 : string) :
  Regex.meta_free q1 = true →
  Regex.meta_free q2 = true →
  lower q1 = lower q2 →
  (∀ language_id,
     get_words db language_id (Some q1) = get_words db language_id (Some q2))
  ∧ (∀ from_language to_language,
       search_words db q1 from_language to_language
       = search_words db q2 from_language to_language).
Proof.
  intros Hfree1 Hfree2 Hlower. split.
  - intros language_id. unfold get_words.
    rewrite (truthy_str_lower q1 q2 Hlower).
    change (default EmptyString (Some q1)) with q1.
    change (default EmptyString (Some q2)) with q2.
    destruct (truthy_str language_id), (truthy_str (Some q2));
      cbn [app default compile]; unfold compile_cond;
      rewrite ?(parse_literal q1), ?(parse_literal q2) by done; try done;
      f_equal; f_equal; apply find_ext; intros d; unfold field_has;
      destruct (d !! "word") as [v|]; try done;
      rewrite (value_has_ext (Regex.search (literal q1))
                 (Regex.search (literal q2)) v); try done;
      intros s; rewrite !search_literal; by apply substring_ci_lower.
  - intros from_language to_language. unfold search_words.
    assert (∀ d, field_has "word"
                   (value_has (Regex.search (Regex.Cat Regex.Bol (literal q1))))
                   d
                 = field_has "word"
                     (value_has
                        (Regex.search (Regex.Cat Regex.Bol (literal q2)))) d)
      as Hword.
    { intros d. unfold field_has. destruct (d !! "word") as [v|]; [|done].
      apply value_has_ext. intros s. rewrite !search_anchored_literal.
      by apply prefix_ci_lower. }
    destruct (truthy_str from_language); cbn [app default compile];
      unfold compile_cond;
      rewrite (parse_anchored_literal q1), (parse_anchored_literal q2)
        by done.
    + erewrite find_ext; [reflexivity|]. intros d. by rewrite Hword.
    + erewrite find_ext; [reflexivity|]. intros d. by rewrite Hword.
Qed.

Lemma query_case_is_ignored_witness :
  get_words demo_db None (Some "CaT") = get_words demo_db None (Some "cat")
  ∧ search_words demo_db "CaT" None (Some "es")
    = search_words demo_db "cat" None (Some "es").
Proof.
  destruct (query_case_is_ignored demo_db "CaT" "cat" eq_refl eq_refl eq_refl)
    as [Hget Hsearch].
  split; [apply Hget | apply Hsearch].
Defined.

(** ** Finding a created word *)

Lemma prefix_ci_refl q : prefix_ci q q = true.
Proof.
  induction q as [|c q IH]; simpl; [done|].
  by rewrite Ascii.eqb_refl, IH.
Qed.

Lemma substring_ci_refl q : substring_ci q q = true.
Proof. destruct q; simpl; by rewrite ?Ascii.eqb_refl, ?prefix_ci_refl. Qed.

Lemma take_filter_snoc {A} (p : A → bool) (n : nat) (l : list A) x :
  p x = true →
  ((length (List.filter p l) < n)%nat →
     take n (List.filter p (l ++ [x])) = List.filter p l ++ [x])
  ∧ ((n ≤ length (List.filter p l))%nat →
     take n (List.filter p (l ++ [x])) = take n (List.filter p l)).
Proof.
  intros Hx. rewrite List.filter_app. cbn [List.filter]. rewrite Hx.
  split; intros Hlen.
  - rewrite take_ge; [done|]. rewrite length_app. simpl. lia.
  - by rewrite take_app_le.
Qed.

(** X15.  A created word is found by its own text as long as the cut
    leaves room.  Over a collection of words, and for a text without
    metacharacters: when fewer than 100 stored words start with the text,
    [search_words] with the text answers, after [create_word], with them
    and the new word last, and when 100 or more do, with what it answered
    before; the same holds of [get_words] with the words that contain the
    text and 1000. *)
Theorem created_word_is_found
    (db : database) (word_data : WordCreate.t) (current_user : User.t)
    (e : ambient) (ws : list Word.t) :
  mapM Word.parse (words db) = Some ws →
  Regex.meta_free (WordCreate.word word_data) = true →
  let text := WordCreate.word word_data in
  let db' := fst (create_word db word_data current_user e) in
  let new := new_word_of word_data current_user e in
  let starting := List.filter (λ w, prefix_ci text (Word.word w)) ws in
  let containing := List.filter (λ w, substring_ci text (Word.word w)) ws in
  ((length starting < 100)%nat →
     search_words db' text None None = Ok (starting ++ [new]))
  ∧ ((100 ≤ length starting)%nat →
     search_words db' text None None = search_words db text None None)
  ∧ ((length containing < 1000)%nat →
     get_words db' None (Some text) = Ok (containing ++ [new]))
  ∧ ((1000 ≤ length containing)%nat →
     get_words db' None (Some text) = get_words db None (Some text)).
Proof.
  intros Hparse Hfree text db' new starting containing.
  assert (mapM Word.parse (words db') = Some (ws ++ [new])) as Hparse'.
  { subst db'. rewrite create_word_state. cbn [fst words].
    apply mapM_Some, Forall2_app; [by apply mapM_Some|].
    constructor; [apply parse_stored | constructor]. }
  destruct (literal_query_results db text ws Hfree Hparse) as [Hget Hsearch].
  destruct (literal_query_results db' text _ Hfree Hparse')
    as [Hget' Hsearch'].
  rewrite Hget, Hsearch, Hget', Hsearch'.
  destruct (take_filter_snoc (λ w, prefix_ci text (Word.word w)) 100 ws new
              (prefix_ci_refl text)) as [Hs1 Hs2].
  destruct (take_filter_snoc (λ w, substring_ci text (Word.word w)) 1000 ws
              new (substring_ci_refl text)) as [Hc1 Hc2].
  split; [|split; [|split]]; intros Hlen.
  - by rewrite Hs1.
  - by rewrite Hs2.
  - by rewrite Hc1.
  - by rewrite Hc2.
Qed.

Lemma created_word_is_found_witness :
  search_words
    (fst (create_word demo_db (WordCreate.Build "cater" "en" []) ann
            (demo_ambient "n" 5))) "cater" None None
  = Ok [Word.Build "w-n" "cater" "en" [] "u-ann" "u-ann" 205 205]
  ∧ get_words
      (fst (create_word many_db (WordCreate.Build "cat" "en" []) ann
              (demo_ambient "n" 5))) None (Some "cat")
    = get_words many_db None (Some "cat").
Proof.
  split.
  - apply (created_word_is_found demo_db (WordCreate.Build "cater" "en" [])
             ann (demo_ambient "n" 5) _ demo_db_words eq_refl).
    vm_compute. lia.
  - apply (created_word_is_found many_db (WordCreate.Build "cat" "en" [])
             ann (demo_ambient "n" 5) _ many_db_words eq_refl).
    assert (∀ n, List.filter (λ w, substring_ci "cat" (Word.word w))
                   (replicate n word_cat) = replicate n word_cat) as ->.
    { induction n as [|n IH]; [done|]. cbn [replicate List.filter].
      by rewrite IH. }
    rewrite length_replicate. lia.
Defined.

(** ** A new user and the languages *)

(** X16.  A user who has just registered is a contributor, and
    [create_language] answers the user [get_user] finds under the new
    username with 403, storing nothing. *)
Theorem new_user_creates_no_language {platform : Platform}
    (db : database) (user_data : UserCreate.t) (e : ambient)
    (language : Language.t) :
  ¬ taken db user_data →
  let db' := fst (register_user db user_data e) in
  ∃ user,
    get_user db' (UserCreate.username user_data) = Some user
    ∧ create_language db' language user
      = (db', HTTPException 403 "Insufficient permissions").
Proof.
  intros Hfree db'.
  destruct (register_user_free db user_data Hfree) as [Hname Hmail].
  eexists. split.
  - subst db'. unfold register_user. rewrite Hname, Hmail. simpl.
    unfold get_user, insert_one. simpl. rewrite find_one_app_None by done.
    unfold find_one. simpl. unfold User.has_username. simpl.
    rewrite bool_decide_eq_true_2 by done. reflexivity.
  - reflexivity.
Qed.

Lemma new_user_creates_no_language_witness :
  ∃ user,
    get_user
      (fst (register_user (platform := demo_platform) demo_db
              (UserCreate.Build "eve@example.com" "eve" "pw")
              (demo_ambient "r" 0))) "eve" = Some user
    ∧ User.role user = CONTRIBUTOR.
Proof.
  destruct (new_user_creates_no_language (platform := demo_platform) demo_db
              (UserCreate.Build "eve@example.com" "eve" "pw")
              (demo_ambient "r" 0) lang_en) as (user & Huser & _).
  - intros (u & Hin & Hu). simpl in Hin.
    rewrite !elem_of_cons, elem_of_nil in Hin.
    destruct Hin as [->|[->|[->|[]]]]; destruct Hu as [Hu|Hu];
      discriminate Hu.
  - exists user. split; [exact Huser|].
    vm_compute in Huser. injection Huser as <-. reflexivity.
Defined.
